(** * giterator: log stream parser, change reconciler, branch reconstructor
      and archive file reader

    A shallow embedding of [giterator/giterator.py] and [giterator/file.py].

    Conventions of the model:
    - text is [string]; a character is a code point below 256;
    - Python integers are [Z];
    - a Python [dict] with string keys is a [gmap string _];
    - a generator is the list of values it yields together with the way it
      ends ([Return] or [Raise e]);
    - the standard output of the git process is the list of the lines
      [readline()] returns before it returns the empty bytes object, each
      decoded ([decode] of [giterator/helper.py], with errors ignored). *)

From Stdlib Require Import ZArith Ascii String List Lia.
From stdpp Require Import base option list gmap strings fin_maps.

Open Scope string_scope.
Open Scope list_scope.
Open Scope Z_scope.

(** ** Python string primitives *)

Module PyStr.

(** [str.isspace] / the regex class [\s] on code points below 256. *)
Definition is_space (c : ascii) : bool :=
  let n := N_of_ascii c in
  ((9 <=? n) && (n <=? 13) || (28 <=? n) && (n <=? 32)
   || (n =? 133) || (n =? 160))%N.

(** The regex class [\d] on code points below 256. *)
Definition is_digit (c : ascii) : bool :=
  let n := N_of_ascii c in ((48 <=? n) && (n <=? 57))%N.

(** The regex class [[a-z]]. *)
Definition is_lower (c : ascii) : bool :=
  let n := N_of_ascii c in ((97 <=? n) && (n <=? 122))%N.

Definition newline : ascii := ascii_of_N 10.

Definition is_empty (s : string) : bool :=
  match s with EmptyString => true | String _ _ => false end.

(** [s.lstrip()] *)
Fixpoint lstrip (s : string) : string :=
  match s with
  | EmptyString => EmptyString
  | String c s' => if is_space c then lstrip s' else s
  end.

(** [s.rstrip()] *)
Fixpoint rstrip (s : string) : string :=
  match s with
  | EmptyString => EmptyString
  | String c s' =>
      let r := rstrip s' in
      if is_space c && is_empty r then EmptyString else String c r
  end.

(** [s.strip()] *)
Definition strip (s : string) : string := lstrip (rstrip s).

(** [s.startswith(p)] *)
Fixpoint startswith (p s : string) : bool :=
  match p, s with
  | EmptyString, _ => true
  | String a p', String b s' => Ascii.eqb a b && startswith p' s'
  | String _ _, EmptyString => false
  end.

(** The longest prefix whose characters satisfy [p], and the rest. *)
Fixpoint span (p : ascii -> bool) (s : string) : string * string :=
  match s with
  | EmptyString => (EmptyString, EmptyString)
  | String c s' =>
      if p c then let '(a, b) := span p s' in (String c a, b)
      else (EmptyString, s)
  end.

(** [s.split()]: split on runs of whitespace, no empty pieces. The
    accumulator [cur] holds the piece being read, reversed. *)
Fixpoint split_ws_aux (cur : list ascii) (s : string) : list string :=
  let flush := match cur with
               | [] => []
               | _ => [string_of_list_ascii (rev cur)]
               end in
  match s with
  | EmptyString => flush
  | String c s' =>
      if is_space c then flush ++ split_ws_aux [] s'
      else split_ws_aux (c :: cur) s'
  end.

Definition split_ws (s : string) : list string := split_ws_aux [] s.

(** [s[n:]] for [n >= 0]. *)
Fixpoint drop_chars (n : nat) (s : string) : string :=
  match n, s with
  | O, _ => s
  | S n', String _ s' => drop_chars n' s'
  | S _, EmptyString => EmptyString
  end.

(** [s.split(sep)] for a non-empty separator: pieces may be empty. The
    fuel bounds the number of characters still to be read. *)
Fixpoint split_sep_aux (fuel : nat) (sep : string) (cur : list ascii)
    (s : string) : list string :=
  match fuel with
  | O => [string_of_list_ascii (rev cur)]
  | S fuel' =>
      match s with
      | EmptyString => [string_of_list_ascii (rev cur)]
      | String c s' =>
          if startswith sep s then
            string_of_list_ascii (rev cur)
            :: split_sep_aux fuel' sep [] (drop_chars (String.length sep) s)
          else split_sep_aux fuel' sep (c :: cur) s'
      end
  end.

Definition split_sep (sep s : string) : list string :=
  split_sep_aux (S (String.length s)) sep [] s.

End PyStr.

Import PyStr.

(** ** The two change-section grammars *)

Module Re.

(** One group [(-|\d+)]: a dash, or a maximal non-empty run of digits. *)
Definition dash_or_digits (s : string) : option (string * string) :=
  match s with
  | String "-" rest => Some ("-", rest)
  | _ => let '(ds, rest) := span is_digit s in
         if is_empty ds then None else Some (ds, rest)
  end.

(** One [\s]. *)
Definition one_space (s : string) : option string :=
  match s with
  | String c rest => if is_space c then Some rest else None
  | EmptyString => None
  end.

(** The last group and the anchor of the numeric-stat pattern: a dot does
    not match a newline, and the dollar matches at the end of the text or
    just before a newline that ends it. *)
Definition dot_star_eol (s : string) : option string :=
  let '(a, b) := span (fun c => negb (Ascii.eqb c newline)) s in
  match b with
  | EmptyString => Some a
  | String _ EmptyString => Some a
  | _ => None
  end.

(** [_RE_CHANGE_NUMSTATS.match(line).groups()]: dash or digits, one
    whitespace, dash or digits, one whitespace, the rest of the line. *)
Definition _RE_CHANGE_NUMSTATS (line : string)
    : option (string * string * string) :=
  '(additions, r1) ← dash_or_digits line;
  r2 ← one_space r1;
  '(deletions, r3) ← dash_or_digits r2;
  r4 ← one_space r3;
  name ← dot_star_eol r4;
  Some (additions, deletions, name).

(** A literal prefix. *)
Definition literal (p s : string) : option string :=
  if startswith p s then Some (drop_chars (String.length p) s) else None.

(** Exactly [n] digits. *)
Fixpoint digits (n : nat) (s : string) : option (string * string) :=
  match n with
  | O => Some (EmptyString, s)
  | S n' =>
      match s with
      | String c rest =>
          if is_digit c then
            '(ds, r) ← digits n' rest; Some (String c ds, r)
          else None
      | EmptyString => None
      end
  end.

(** [_RE_CHANGE_SUMMARY.match(line).groups()]: lower-case letters, the
    text " mode ", six digits, a space, and at least one character up to
    the first newline; the pattern is not anchored at the end. *)
Definition _RE_CHANGE_SUMMARY (line : string)
    : option (string * string * string) :=
  let '(type, r1) := span is_lower line in
  if is_empty type then None else
  r2 ← literal " mode " r1;
  '(mode, r3) ← digits 6 r2;
  r4 ← literal " " r3;
  let '(name, _) := span (fun c => negb (Ascii.eqb c newline)) r4 in
  if is_empty name then None else Some (type, mode, name).

End Re.

(** ** Exceptions and generators *)

(** A generator: what it yields, and how it ends. *)
Inductive outcome (E : Type) : Type :=
| Return
| Raise (e : E).
Arguments Return {E}.
Arguments Raise {E} e.

(** A call that returns a value or raises. *)
Inductive result (E A : Type) : Type :=
| Ok (a : A)
| Err (e : E).
Arguments Ok {E A} a.
Arguments Err {E A} e.

#[global] Instance result_bind {E} : MBind (result E) :=
  fun A B (k : A -> result E B) (m : result E A) =>
    match m with
    | Ok a => k a
    | Err e => Err e
    end.

(** ** The log stream parser and the change reconciler *)

Section Parser.

(** [parse_datetime] and [get_git_renaming] come from [giterator/helper.py],
    which is not among the sources: both are parameters. A rename is
    reported as [Some (old_name, new_name)]. *)
Context {datetime : Type}.
Variable parse_datetime : string -> datetime.
Variable get_git_renaming : string -> option (string * string).

(** The values a commit dictionary holds. *)
Inductive value : Type :=
| VStr (s : string)
| VList (l : list string)
| VDate (d : datetime)
| VChanges (l : list (gmap string string)).

(** [KeyError] and [TypeError] are Python's; [AssertionError] carries what
    the message of [_parse_summary] interpolates: the path, the line and
    the commit dictionary. *)
Inductive exn : Type :=
| KeyError (key : string)
| TypeError
| AssertionError (name line : string) (commit : gmap string value).

Definition _LOG_INFOS : list (string * string * option (string -> value)) :=
  [ ("%H", "hash", None);
    ("%T", "tree_hash", None);
    ("%P", "parent_hash",
      Some (fun s => VList (if is_empty (strip s) then [] else split_ws s)));
    ("%an", "author", None);
    ("%ae", "author_email", None);
    ("%aI", "author_date", Some (fun s => VDate (parse_datetime s)));
    ("%an", "committer", None);
    ("%ae", "committer_email", None);
    ("%aI", "committer_date", Some (fun s => VDate (parse_datetime s)));
    ("%D", "ref_names",
      Some (fun s => VList (if is_empty (strip s) then [] else split_sep ", " s)));
    ("%e", "encoding", None) ].

Definition _DELIMITER1 : string := "$$$1-GiTeRaToR-dAtA-dElImItEr-$$$".
Definition _DELIMITER2 : string :=
  String newline "$$$2-GiTeRaToR-dAtA-dElImItEr-$$$".

(** [commit["changes"]] *)
Definition get_changes (commit : gmap string value)
    : result exn (list (gmap string string)) :=
  match commit !! "changes" with
  | None => Err (KeyError "changes")
  | Some (VChanges l) => Ok l
  | Some _ => Err TypeError
  end.

(** [commit["message"]], which must be a [str]. *)
Definition get_message (commit : gmap string value) : result exn string :=
  match commit !! "message" with
  | None => Err (KeyError "message")
  | Some (VStr m) => Ok m
  | Some _ => Err TypeError
  end.

(** [_parse_changes]: returns the commit as it leaves it and the Python
    value returned: [Some false] for [False], [None] for the [None] of a
    body that ends without [return]. *)
Definition _parse_changes (commit : gmap string value) (line : string)
    : result exn (gmap string value * option bool) :=
  match Re._RE_CHANGE_NUMSTATS line with
  | None => Ok (commit, Some false)
  | Some (additions, deletions, name) =>
      let commit1 :=
        match commit !! "changes" with
        | None => <["changes" := VChanges []]> commit
        | Some _ => commit
        end in
      changes ← get_changes commit1;
      let ch : gmap string string :=
        <["deletions" := deletions]>
          (<["additions" := additions]>
             (<["type" := "change"]> (<["name" := name]> ∅))) in
      let ch' :=
        match get_git_renaming name with
        | Some (old_name, new_name) =>
            <["type" := "rename"]>
              (<["old_name" := old_name]> (<["name" := new_name]> ch))
        | None => ch
        end in
      Ok (<["changes" := VChanges (changes ++ [ch'])]> commit1, None)
  end.

(** The [for ch in commit["changes"]] loop of [_parse_summary]:
    [Some l] when a change was enriched ([l] is the list afterwards),
    [None] when the loop ran to its end. *)
Fixpoint enrich (type mode name : string) (changes : list (gmap string string))
    : result exn (option (list (gmap string string))) :=
  match changes with
  | [] => Ok None
  | ch :: rest =>
      match ch !! "name" with
      | None => Err (KeyError "name")
      | Some n =>
          if String.eqb n name then
            Ok (Some (<["mode" := mode]> (<["type" := type]> ch) :: rest))
          else
            r ← enrich type mode name rest;
            Ok (option_map (cons ch) r)
      end
  end.

Definition _parse_summary (commit : gmap string value) (line : string)
    : result exn (gmap string value * bool) :=
  if startswith "rename " line then Ok (commit, true)
  else
    match Re._RE_CHANGE_SUMMARY (strip line) with
    | None => Ok (commit, false)
    | Some (type, mode, name) =>
        changes ← get_changes commit;
        r ← enrich type mode name changes;
        match r with
        | Some changes' => Ok (<["changes" := VChanges changes']> commit, true)
        | None => Err (AssertionError name line commit)
        end
    end.

(** The value stored for a field: the line, or its transform. *)
Definition field_value (transform : option (string -> value)) (line : string)
    : value :=
  match transform with
  | Some f => f line
  | None => VStr line
  end.

(** Python truth of the value [_parse_changes] returns. *)
Definition truthy (r : option bool) : bool :=
  match r with
  | Some b => b
  | None => false
  end.

(** The body of the [while] loop of [iter_commits] for a line that is not
    [_DELIMITER1]: the [elif] for [_DELIMITER2[1:]], the [else] that
    digests the line, and the increment of [current_line] that ends the
    body. *)
Definition digest (commit : gmap string value) (current_line : Z)
    (line : string) : result exn (gmap string value * Z) :=
  let n := Z.of_nat (length _LOG_INFOS) in
  '(commit', current_line') ←
    (if String.eqb line (drop_chars 1 _DELIMITER2) then
      m ← get_message commit;
      Ok (<["message" := VStr (rstrip m)]> commit, (-1))
    else if (1 <=? current_line) && (current_line <=? n) then
      match _LOG_INFOS !! Z.to_nat (current_line - 1) with
      | Some (_, key, transform) =>
          Ok (<[key := field_value transform line]> commit, current_line)
      | None => Ok (commit, current_line)
      end
    else if current_line =? n + 1 then
      Ok (<["message" := VStr (rstrip line)]> commit, current_line)
    else if n + 1 <? current_line then
      m ← get_message commit;
      Ok (<["message" := VStr (String.append m (String newline (rstrip line)))]> commit,
          current_line)
    else if current_line =? -1 then
      let line' := strip line in
      '(commit1, r) ← _parse_changes commit line';
      if negb (truthy r) then
        '(commit2, _) ← _parse_summary commit1 line';
        Ok (commit2, current_line)
      else Ok (commit1, current_line)
    else Ok (commit, current_line));
  Ok (commit', if 0 <=? current_line' then current_line' + 1 else current_line').

(** Python truth of a dictionary. *)
Definition nonempty (commit : gmap string value) : bool :=
  negb (bool_decide (commit = ∅)).

(** [count <= 0 or (cur_count - offset) < count] *)
Definition within (offset count cur_count : Z) : bool :=
  (count <=? 0) || (cur_count - offset <? count).

(** What follows the [while] loop: the commit in flight is yielded under
    the same test. *)
Definition flush_pending (offset count : Z) (commit : gmap string value)
    (cur_count : Z) : list (gmap string value) :=
  if nonempty commit && (offset <=? cur_count) && within offset count cur_count
  then [commit] else [].

Definition yield_then {A E} (ys : list A) (g : list A * outcome E)
    : list A * outcome E :=
  (ys ++ g.1, g.2).

(** The [while] loop of [iter_commits] over the lines still to be read. A
    yielded [Commit(self, **commit)] is its keyword dictionary. *)
Fixpoint iter_commits_loop (offset count : Z) (commit : gmap string value)
    (current_line cur_count : Z) (stdout : list string)
    : list (gmap string value) * outcome exn :=
  if within offset count cur_count then
    match stdout with
    | [] => (flush_pending offset count commit cur_count, Return)
    | raw :: rest =>
        let line := rstrip raw in
        if String.eqb line _DELIMITER1 then
          if nonempty commit then
            yield_then (if offset <=? cur_count then [commit] else [])
              (iter_commits_loop offset count ∅ 1 (cur_count + 1) rest)
          else iter_commits_loop offset count ∅ 1 cur_count rest
        else
          match digest commit current_line line with
          | Err e => ([], Raise e)
          | Ok (commit', current_line') =>
              iter_commits_loop offset count commit' current_line' cur_count rest
          end
    end
  else (flush_pending offset count commit cur_count, Return).

Definition iter_commits (offset count : Z) (stdout : list string)
    : list (gmap string value) * outcome exn :=
  iter_commits_loop offset count ∅ 0 0 stdout.

(** *** Frames

    The lines of one commit as [git log] writes them for the pretty
    format of [iter_commits]: the line of [_DELIMITER1], one line per entry
    of [_LOG_INFOS], the lines of the message, the line of
    [_DELIMITER2[1:]], and the lines of the change section. Lines are
    kept as read, line ends included. *)
Record frame : Type := Frame {
  start_line : string;
  field_lines : list string;
  message_lines : list string;
  end_line : string;
  change_lines : list string
}.

(** The lines of a frame after its first one. *)
Definition frame_body (f : frame) : list string :=
  field_lines f ++ message_lines f ++ end_line f :: change_lines f.

Definition frame_lines (f : frame) : list string :=
  start_line f :: frame_body f.

Definition stream_of (frames : list frame) : list string :=
  concat (map frame_lines frames).

Definition is_delimiter (raw : string) : bool :=
  String.eqb (rstrip raw) _DELIMITER1
  || String.eqb (rstrip raw) (drop_chars 1 _DELIMITER2).

(** The name a numeric-stat line gives its change. *)
Definition change_name (name : string) : string :=
  match get_git_renaming name with
  | Some (_, new_name) => new_name
  | None => name
  end.

(** A change section is consistent when every summary line that is not a
    rename notice names a path that an earlier numeric-stat line of the
    section has recorded; [seen] lists the names recorded so far. *)
Fixpoint changes_ok (seen : list string) (lines : list string) : bool :=
  match lines with
  | [] => true
  | raw :: rest =>
      let line := strip (rstrip raw) in
      match Re._RE_CHANGE_NUMSTATS line with
      | Some (_, _, name) => changes_ok (seen ++ [change_name name]) rest
      | None =>
          if startswith "rename " line then changes_ok seen rest
          else match Re._RE_CHANGE_SUMMARY (strip line) with
               | Some (_, _, name) =>
                   bool_decide (name ∈ seen) && changes_ok seen rest
               | None => changes_ok seen rest
               end
      end
  end.

Definition well_formed (f : frame) : bool :=
  String.eqb (rstrip (start_line f)) _DELIMITER1
  && (length (field_lines f) =? length _LOG_INFOS)%nat
  && negb (bool_decide (message_lines f = []))
  && String.eqb (rstrip (end_line f)) (drop_chars 1 _DELIMITER2)
  && forallb (fun raw => negb (is_delimiter raw))
       (field_lines f ++ message_lines f ++ change_lines f)
  && changes_ok [] (change_lines f).

(** The loop body folded over lines none of which is [_DELIMITER1]. *)
Fixpoint digest_lines (commit : gmap string value) (current_line : Z)
    (lines : list string) : result exn (gmap string value * Z) :=
  match lines with
  | [] => Ok (commit, current_line)
  | raw :: rest =>
      '(commit', current_line') ← digest commit current_line (rstrip raw);
      digest_lines commit' current_line' rest
  end.

(** The commit dictionary the parser builds from the lines of a frame. *)
Definition frame_commit (f : frame) : gmap string value :=
  match digest_lines ∅ 1 (frame_body f) with
  | Ok (commit, _) => commit
  | Err _ => ∅
  end.

(** [separator.join(lines)] with the newline as separator. *)
Fixpoint join_lines (lines : list string) : string :=
  match lines with
  | [] => EmptyString
  | [l] => l
  | l :: rest => String.append l (String newline (join_lines rest))
  end.

(** The commits a generator yields from position [k] on, and the first
    [m] of them when [m > 0]: the Python slice [[k : k + m]], or [[k :]]. *)
Definition window {A} (k m : Z) (l : list A) : list A :=
  if 0 <? m then take (Z.to_nat m) (drop (Z.to_nat k) l)
  else drop (Z.to_nat k) l.

End Parser.

Arguments value datetime : clear implicits.
Arguments exn datetime : clear implicits.

(** ** The branch reconstructor *)

Section Reconstructor.

(** The class [Commit] is in [giterator/commit.py], which is not among the
    sources: the reconstructor reads two attributes of a commit, [hash]
    and [parent_hash], and both are parameters. [E] is the type of the
    exceptions the commit sequence may end with. *)
Context {Commit E : Type}.
Variable hash : Commit -> string.
Variable parent_hash : Commit -> list string.

(** An open branch is the Python list [[age, commit, ...]]: slot 0 is the
    age counter, and at least one commit follows it, since a branch is
    created as [[0, commit]] and only ever appended to. *)
Record branch : Type := Branch {
  age : Z;
  first_commit : Commit;
  later_commits : list Commit
}.

(** [branch[1:]] *)
Definition branch_commits (b : branch) : list Commit :=
  first_commit b :: later_commits b.

(** [branch[-1]] *)
Definition tip (b : branch) : Commit :=
  List.last (later_commits b) (first_commit b).

(** [[0, commit]] *)
Definition new_branch (c : Commit) : branch := Branch 0 c [].

(** [branch.append(commit)] *)
Definition append (b : branch) (c : Commit) : branch :=
  Branch (age b) (first_commit b) (later_commits b ++ [c]).

(** The inner loop [for parent_hash in commit.parent_hash]. *)
Fixpoint try_append (added : bool) (c : Commit) (b : branch)
    (parents : list string) : branch * bool :=
  match parents with
  | [] => (b, added)
  | p :: ps =>
      if negb added && String.eqb p (hash (tip b)) then (append b c, true)
      else try_append added c b ps
  end.

(** [len(branch) - 1 > branch_length or branch[0] > branch_age] *)
Definition evicted (branch_length branch_age : Z) (b : branch) : bool :=
  (branch_length <? Z.of_nat (length (branch_commits b)))
  || (branch_age <? age b).

(** The loop [for branch in branches]: the branches kept
    ([new_branches]), the runs yielded (one per [yield from]), and
    [added]. *)
Fixpoint scan (branch_length branch_age : Z) (c : Commit)
    (branches : list branch) (added : bool)
    : list branch * list (list Commit) * bool :=
  match branches with
  | [] => ([], [], added)
  | b :: rest =>
      let '(b1, added1) := try_append added c b (parent_hash c) in
      let b2 := Branch (age b1 + 1) (first_commit b1) (later_commits b1) in
      let '(new_branches, runs, added2) :=
        scan branch_length branch_age c rest added1 in
      if evicted branch_length branch_age b2
      then (new_branches, branch_commits b2 :: runs, added2)
      else (b2 :: new_branches, runs, added2)
  end.

(** One turn of [for commit in self.iter_commits(...)]: the open branches
    afterwards and the runs yielded during the turn. *)
Definition step (branch_length branch_age : Z) (branches : list branch)
    (c : Commit) : list branch * list (list Commit) :=
  match parent_hash c with
  | [] => (branches ++ [new_branch c], [])
  | _ :: _ =>
      let '(new_branches, runs, added) :=
        scan branch_length branch_age c branches false in
      (if added then new_branches else new_branches ++ [new_branch c], runs)
  end.

(** The generator as the sequence of its [yield from] runs. The commit
    sequence ends with [Return], and the open branches are flushed, or
    with an exception, which passes through. *)
Fixpoint consecutive_loop (branch_length branch_age : Z)
    (branches : list branch) (commits : list Commit) (ending : outcome E)
    : list (list Commit) * outcome E :=
  match commits with
  | [] =>
      match ending with
      | Return => (map branch_commits branches, Return)
      | Raise e => ([], Raise e)
      end
  | c :: rest =>
      let '(branches', runs) := step branch_length branch_age branches c in
      yield_then runs
        (consecutive_loop branch_length branch_age branches' rest ending)
  end.

Definition consecutive_runs (branch_length branch_age : Z)
    (source : list Commit * outcome E) : list (list Commit) * outcome E :=
  consecutive_loop branch_length branch_age [] source.1 source.2.

(** [iter_commits_consecutive], given what
    [self.iter_commits(offset=offset, count=count)] produces. *)
Definition iter_commits_consecutive (branch_length branch_age : Z)
    (source : list Commit * outcome E) : list Commit * outcome E :=
  let r := consecutive_runs branch_length branch_age source in
  (concat r.1, r.2).

End Reconstructor.

Arguments branch Commit : clear implicits.

(** ** The archive file reader *)

Module Archive.

(** [io.BytesIO]: the bytes and the position. *)
Record BytesIO : Type := {
  getvalue : list Byte.byte;
  tell : Z
}.

(** The fields of [tarfile.TarInfo] that are read, and [isfile()]. *)
Record TarInfo : Type := {
  name : string;
  size : Z;
  mtime : Z;
  offset_data : Z;
  sparse : option (list (Z * Z));
  isfile : bool
}.

Inductive exn : Type :=
| ValueError
| OverflowError
| ReadError (detail : string)
| UnicodeDecodeError (object : list Byte.byte).

(** The largest [Py_ssize_t], on a 64-bit build of the interpreter. The
    position and the size that [BytesIO] takes are converted to this
    type, and an integer outside of it is an [OverflowError]. *)
Definition PY_SSIZE_T_MAX : Z := 9223372036854775807.
Definition PY_SSIZE_T_MIN : Z := - PY_SSIZE_T_MAX - 1.

Definition fits_ssize_t (n : Z) : bool :=
  (PY_SSIZE_T_MIN <=? n) && (n <=? PY_SSIZE_T_MAX).

(** [buffer.seek(offset)]: the offset is converted first, then a negative
    one is refused. *)
Definition seek (buffer : BytesIO) (offset : Z) : result exn BytesIO :=
  if negb (fits_ssize_t offset) then Err OverflowError
  else if offset <? 0 then Err ValueError
  else Ok {| getvalue := getvalue buffer; tell := offset |}.

(** [buffer.read(size)]: the size is converted first; a negative size
    reads to the end. *)
Definition read (buffer : BytesIO) (size : Z)
    : result exn (list Byte.byte * BytesIO) :=
  if negb (fits_ssize_t size) then Err OverflowError
  else
    let available := drop (Z.to_nat (tell buffer)) (getvalue buffer) in
    let got := if size <? 0 then available
               else take (Z.to_nat size) available in
    Ok (got, {| getvalue := getvalue buffer;
                tell := tell buffer + Z.of_nat (length got) |}).

(** The Python slice [b[lo:hi]] for [0 <= lo]. *)
Definition slice (b : list Byte.byte) (lo hi : Z) : list Byte.byte :=
  take (Z.to_nat (hi - lo)) (drop (Z.to_nat lo) b).

(** A [File]. Its [_buffer] is the one [BytesIO] that all the files of
    an [iter_files] call share: it is the store the operations below
    thread. *)
Record File : Type := {
  _tarinfo : TarInfo;
  _data : option (list Byte.byte)
}.

(** [File(repo, buffer, tarinfo)] *)
Definition File_init (tarinfo : TarInfo) : File :=
  {| _tarinfo := tarinfo; _data := None |}.

(** The loop [for offset, size in self._tarinfo.sparse]; [data] is
    [self._data]. When [seek] or [read] raises, [self._data] keeps what
    was read, and the buffer the position it had reached. *)
Fixpoint read_extents (data : list Byte.byte) (extents : list (Z * Z))
    (buffer : BytesIO)
    : result exn unit * list Byte.byte * BytesIO :=
  match extents with
  | [] => (Ok (), data, buffer)
  | (offset, size) :: rest =>
      match seek buffer offset with
      | Err e => (Err e, data, buffer)
      | Ok buffer1 =>
          match read buffer1 size with
          | Err e => (Err e, data, buffer1)
          | Ok (got, buffer2) => read_extents (data ++ got) rest buffer2
          end
      end
  end.

(** The property [File.content]: the value or the exception, the file
    and the shared buffer afterwards. *)
Definition content (f : File) (buffer : BytesIO)
    : result exn (list Byte.byte) * File * BytesIO :=
  match _data f with
  | Some d => (Ok d, f, buffer)
  | None =>
      match sparse (_tarinfo f) with
      | Some extents =>
          let '(r, data, buffer') := read_extents [] extents buffer in
          let f' := {| _tarinfo := _tarinfo f; _data := Some data |} in
          (match r with Ok _ => Ok data | Err e => Err e end, f', buffer')
      | None =>
          match seek buffer (offset_data (_tarinfo f)) with
          | Err e => (Err e, f, buffer)
          | Ok buffer1 =>
              match read buffer1 (size (_tarinfo f)) with
              | Err e => (Err e, f, buffer1)
              | Ok (got, buffer2) =>
                  (Ok got, {| _tarinfo := _tarinfo f; _data := Some got |},
                   buffer2)
              end
          end
      end
  end.

(** An extent of a sparse member is well formed when its offset and its
    size are not negative and fit a [Py_ssize_t]. *)
Definition extent_ok (e : Z * Z) : Prop :=
  0 <= e.1 <= PY_SSIZE_T_MAX /\ 0 <= e.2 <= PY_SSIZE_T_MAX.

(** The bytes of the image an extent covers. *)
Definition extent_bytes (b : list Byte.byte) (e : Z * Z) : list Byte.byte :=
  slice b e.1 (e.1 + e.2).

(** What iterating over [tarfile.open(fileobj=tar_data)] produces: the
    members, up to the end of the archive or to a [tarfile.ReadError];
    opening an image that is no archive is an immediate [TarReadError]. *)
Inductive members : Type :=
| TarEnd
| TarReadError
| TarMember (tarinfo : TarInfo) (rest : members).

Section IterFiles.

(** The standard library's [tarfile.open] and [bytes.decode("utf-8")]
    are parameters; the latter is [None] when it raises. *)
Variable tarfile_open : list Byte.byte -> members.
Variable decode_utf8 : list Byte.byte -> option string.

(** Python truth of the argument [filenames]. *)
Definition requested (filenames : option (list string)) : bool :=
  match filenames with
  | None | Some [] => false
  | Some (_ :: _) => true
  end.

(** The [try] statement of [iter_files]. *)
Fixpoint iter_members (filenames : option (list string))
    (error_response : list Byte.byte) (ms : members)
    : list File * outcome exn :=
  match ms with
  | TarEnd => ([], Return)
  | TarReadError =>
      if negb (requested filenames) then ([], Return)
      else match decode_utf8 error_response with
           | Some detail => ([], Raise (ReadError detail))
           | None => ([], Raise (UnicodeDecodeError error_response))
           end
  | TarMember tarinfo rest =>
      yield_then (if isfile tarinfo then [File_init tarinfo] else [])
        (iter_members filenames error_response rest)
  end.

(** [iter_files], given what the standard output and the standard
    error of the [git archive] process hold. *)
Definition iter_files (filenames : option (list string))
    (stdout stderr : list Byte.byte) : list File * outcome exn :=
  iter_members filenames stderr (tarfile_open stdout).

End IterFiles.

End Archive.

(** Definitions used to state the properties of the reconstructor. *)

Section ReconstructorSpec.

Context {Commit : Type}.
Variable hash : Commit -> string.
Variable parent_hash : Commit -> list string.

(** The open branches as the loop [for branch in branches] leaves them
    before it decides which to keep: each has been offered the commit and
    has aged by one. *)
Fixpoint offered (c : Commit) (branches : list (branch Commit))
    (added : bool) : list (branch Commit) * bool :=
  match branches with
  | [] => ([], added)
  | b :: rest =>
      let '(b1, added1) := try_append hash added c b (parent_hash c) in
      let '(bs, added2) := offered c rest added1 in
      (Branch (age b1 + 1) (first_commit b1) (later_commits b1) :: bs, added2)
  end.

(** All the commits the open branches hold. *)
Definition buffered (branches : list (branch Commit)) : list Commit :=
  concat (map branch_commits branches).

(** The open branches once the main loop has taken the commits [commits]
    in turn, starting with the open branches [branches]. *)
Definition branches_after (branch_length branch_age : Z)
    (branches : list (branch Commit)) (commits : list Commit)
    : list (branch Commit) :=
  fold_left
    (fun branches c =>
       (step hash parent_hash branch_length branch_age branches c).1)
    commits branches.

End ReconstructorSpec.

(** Definitions used to state the properties of the parser. *)

(** The second delimiter as a line holds it. *)
Definition delimiter2_line : string := drop_chars 1 _DELIMITER2.

(** The change named [n]. *)
Definition named (ch : gmap string string) (n : string) : Prop :=
  ch !! "name" = Some n.

(** What the enrichment does to a change. *)
Definition enriched (type mode : string) (ch : gmap string string)
    : gmap string string :=
  <["mode" := mode]> (<["type" := type]> ch).

(** The number of changes of a name. *)
Definition named_count (name : string) (changes : list (gmap string string))
    : nat :=
  length (filter (fun c => c !! "name" = Some name) changes).

(** The message as the loop accumulates it. *)
Definition extend (m : string) (lines : list string) : string :=
  fold_left (fun a raw => String.append a (String newline (rstrip raw))) lines m.

(** Of the commits completed from position [cur_count] on, those the
    generator yields: the ones at a position from [offset] on that pass the
    test of the loop. *)
Fixpoint select {A} (offset count cur_count : Z) (l : list A) : list A :=
  match l with
  | [] => []
  | x :: l' =>
      (if (offset <=? cur_count) && within offset count cur_count
       then [x] else [])
      ++ select offset count (cur_count + 1) l'
  end.

(** The message a frame gives: its lines right stripped, joined by
    newlines, and the whole right stripped. *)
Definition frame_message (f : frame) : string :=
  rstrip (join_lines (map rstrip (message_lines f))).

Section ParserSpec.

Context {datetime : Type}.
Variable parse_datetime : string -> datetime.

(** The names of the changes a commit holds, in order; no name when it
    holds no list of changes. *)
Definition recorded (commit : gmap string (value datetime))
    (seen : list string) : Prop :=
  match commit !! "changes" with
  | None => seen = []
  | Some (VChanges chs) => Forall2 named chs seen
  | Some _ => False
  end.

(** The dictionary once the field lines are stored: line [i] is stored, right
    stripped and transformed, under the name of entry [i] of the table. *)
Fixpoint store_fields (infos : list (string * string * option (string -> value datetime)))
    (lines : list string) (commit : gmap string (value datetime))
    : gmap string (value datetime) :=
  match infos, lines with
  | (_, key, transform) :: infos', raw :: lines' =>
      store_fields infos' lines'
        (<[key := field_value transform (rstrip raw)]> commit)
  | _, _ => commit
  end.

(** The dictionary of a frame but for its changes. *)
Definition frame_head (f : frame) : gmap string (value datetime) :=
  <["message" := VStr (frame_message f)]>
    (store_fields (_LOG_INFOS parse_datetime) (field_lines f) ∅).

(** The field lines of a frame as git writes them: the line of a field is
    the expansion of its format token, the same token giving the same
    line. *)
Definition written_from_tokens (f : frame) : Prop :=
  exists expand : string -> string,
    field_lines f
    = map (fun info => expand info.1.1) (_LOG_INFOS parse_datetime).

(** The committer fields of a commit equal its author fields. *)
Definition committer_is_author (c : gmap string (value datetime)) : Prop :=
  is_Some (c !! "author")
  /\ is_Some (c !! "author_email")
  /\ is_Some (c !! "author_date")
  /\ c !! "committer" = c !! "author"
  /\ c !! "committer_email" = c !! "author_email"
  /\ c !! "committer_date" = c !! "author_date".

End ParserSpec.

(** ** Sample streams *)

Module Samples.

(** The helpers of the samples: dates are kept as text and no path is a
    rename. *)
Definition keep_date (s : string) : string := s.
Definition no_renaming (_ : string) : option (string * string) := None.

(** A line as [readline()] returns it, its newline included. *)
Definition line (s : string) : string :=
  String.append s (String newline EmptyString).

(** What git writes for a token, for a commit of a hash and parents. *)
Definition expand (hash parents : string) (token : string) : string :=
  if String.eqb token "%H" then line hash
  else if String.eqb token "%T" then line "4b825dc642cb6eb9a060e54bf8d69288fbee4904"
  else if String.eqb token "%P" then line parents
  else if String.eqb token "%an" then line "Ann Author"
  else if String.eqb token "%ae" then line "ann@example.org"
  else if String.eqb token "%aI" then line "2021-03-04T05:06:07+01:00"
  else if String.eqb token "%D" then line "HEAD -> main, tag: v1"
  else line "".

Definition sample_frame (hash parents : string) (message changes : list string)
    : frame :=
  Frame (line _DELIMITER1)
    (map (fun info => expand hash parents info.1.1) (_LOG_INFOS keep_date))
    (map line message)
    (line (drop_chars 1 _DELIMITER2))
    (map line changes).

Definition tab : string := String (ascii_of_N 9) EmptyString.

(** A numeric-stat line: the counts and the path, separated by tabs. *)
Definition numstat (additions deletions path : string) : string :=
  String.append additions
    (String.append tab (String.append deletions (String.append tab path))).

Definition frame1 : frame :=
  sample_frame "h1" "" ["Message 1"; ""]
    [""; numstat "1" "0" "a.txt"; numstat "2" "1" "b.txt";
     " create mode 100644 a.txt"].
Definition frame2 : frame :=
  sample_frame "h2" "h1" ["Message 2"; ""] [""; numstat "-" "-" "c.bin"].
Definition frame3 : frame :=
  sample_frame "h3" "h2" ["Message 3"; ""] [].

(** A message whose first line ends with two spaces. *)
Definition frame_spaces : frame :=
  sample_frame "h4" "" ["Fix bug  "; "  details"; ""] [].

(** A summary line with no numeric-stat line before it in the frame. *)
Definition frame_summary_only : frame :=
  sample_frame "h5" "" ["Message 5"; ""] [""; " create mode 100644 a.txt"].

(** A summary line for a path other than that of the numeric-stat line. *)
Definition frame_summary_unmatched : frame :=
  sample_frame "h6" "" ["Message 6"; ""]
    [""; numstat "2" "1" "b.txt"; " create mode 100644 a.txt"].

(** The frame of [frame1] without its summary line. *)
Definition frame1_numstat_only : frame :=
  sample_frame "h1" "" ["Message 1"; ""]
    [""; numstat "1" "0" "a.txt"; numstat "2" "1" "b.txt"].

Definition change (name type additions deletions : string)
    : gmap string string :=
  <["deletions" := deletions]>
    (<["additions" := additions]> (<["type" := type]> (<["name" := name]> ∅))).

(** A line without the newline that ends it. *)
Fixpoint chomp (s : string) : string :=
  match s with
  | EmptyString => EmptyString
  | String c EmptyString => if Ascii.eqb c newline then EmptyString else s
  | String c s' => String c (chomp s')
  end.

(** The message as the specification words it: the lines as they are,
    joined by newlines, trailing whitespace stripped once at the end. *)
Definition message_as_specified (lines : list string) : string :=
  rstrip (join_lines (map chomp lines)).

(** An archive image of sixteen bytes and a sparse member of two extents. *)
Definition sample_image : list Byte.byte :=
  list_byte_of_string "0123456789abcdef".

Definition sample_sparse : Archive.TarInfo :=
  {| Archive.name := "sparse.bin"; Archive.size := 8; Archive.mtime := 0; Archive.offset_data := 0;
     Archive.sparse := Some [(0, 4); (10, 4)]; Archive.isfile := true |}.

(** A decoder for the examples: the bytes as code points. *)
Definition decode_latin (b : list Byte.byte) : option string :=
  Some (string_of_list_byte b).

(** A commit of the examples: its hash and the hashes of its parents. *)
Definition example_commit : Type := string * list string.

(** Three commits in a line, and an unrelated one. *)
Definition k1 : example_commit := ("h1", []).
Definition k2 : example_commit := ("h2", ["h1"]).
Definition k3 : example_commit := ("h3", ["h2"]).
Definition k4 : example_commit := ("h4", ["h0"]).

(** A second child of the first commit. *)
Definition k5 : example_commit := ("h5", ["h1"]).

End Samples.

Import Samples.

(** ** The command line, the constructor and the one-shot queries *)

Module Git.

Definition GIT_COMMAND : string := "git".

(** The loop of [_no_duplicate_args]: [arg_set] is the set of the arguments
    met so far and [ret_args] the list returned. *)
Fixpoint no_duplicate_loop (arg_set : gset string) (ret_args : list string)
    (args : list string) : list string :=
  match args with
  | [] => ret_args
  | arg :: rest =>
      if decide (arg ∈ arg_set) then no_duplicate_loop arg_set ret_args rest
      else no_duplicate_loop ({[arg]} ∪ arg_set) (ret_args ++ [arg]) rest
  end.

Definition _no_duplicate_args (args : list string) : list string :=
  no_duplicate_loop ∅ [] args.

(** [" ".join(args)] *)
Fixpoint join_spaces (args : list string) : string :=
  match args with
  | [] => EmptyString
  | [a] => a
  | a :: rest => String.append a (String " " (join_spaces rest))
  end.

(** The attributes of a [Giterator]. The constructor sets the first four;
    [_git_args] is read by [iter_commit_hashes] and set nowhere: [None]
    stands for an object without the attribute. *)
Record Giterator : Type := {
  verbose : bool;
  path : string;
  _num_commits : option Z;
  _hashes : gset string;
  _git_args : option (list string)
}.

(** [Giterator(path, verbose)] *)
Definition Giterator_init (path : string) (verbose : bool) : Giterator :=
  {| verbose := verbose; path := path; _num_commits := None; _hashes := ∅;
     _git_args := None |}.

Inductive exn : Type :=
| AttributeError (name : string)
| IndexError
| ValueError
| CalledProcessError
| UnicodeDecodeError (object : list Byte.byte).

(** [_log]: the lines printed on the standard error. *)
Definition _log (self : Giterator) (message : string) : list string :=
  if verbose self then [message] else [].

Section Queries.

(** [subprocess.check_output] ([None] when the command fails),
    [bytes.decode("utf-8")] ([None] when it raises) and [int] ([None] when
    it raises) belong to Python: they are parameters. *)
Variable check_output : string -> list string -> option (list Byte.byte).
Variable decode_utf8 : list Byte.byte -> option string.
Variable int : string -> option Z.

(** [_git]: the text the command prints, or the exception, and the lines
    logged. *)
Definition _git (self : Giterator) (args : list string)
    : result exn string * list string :=
  let args := _no_duplicate_args (GIT_COMMAND :: args) in
  let logged := _log self (join_spaces args) in
  match check_output (path self) args with
  | None => (Err CalledProcessError, logged)
  | Some output =>
      match decode_utf8 output with
      | None => (Err (UnicodeDecodeError output), logged)
      | Some text => (Ok text, logged)
      end
  end.

(** [num_commits]: the result, the object afterwards and the lines
    logged. *)
Definition num_commits (self : Giterator) (filenames : list string)
    (all : bool) : result exn Z * Giterator * list string :=
  match _num_commits self with
  | Some n => (Ok n, self, [])
  | None =>
      let args :=
        ["rev-list"; "--count"]
        ++ [if all then "--all" else "--branches"]
        ++ match filenames with
           | [] => []
           | _ :: _ => "--" :: filenames
           end in
      match _git self args with
      | (Err e, logged) => (Err e, self, logged)
      | (Ok output, logged) =>
          match int output with
          | None => (Err ValueError, self, logged)
          | Some n =>
              (Ok n,
               {| verbose := verbose self; path := path self;
                  _num_commits := Some n; _hashes := _hashes self;
                  _git_args := _git_args self |},
               logged)
          end
      end
  end.

(** [diff] *)
Definition diff (self : Giterator) (hash : list string)
    : result exn string * list string :=
  _git self ("diff" :: hash).

End Queries.

Section CommitHashes.

Context {datetime : Type}.
Variable parse_datetime : string -> datetime.

(** The lines, decoded, that the process started with a command prints. *)
Variable stdout_of : list string -> list string.

(** The command of [iter_commit_hashes]. *)
Definition hashes_command (git_args : list string) (filenames : list string)
    (topo_order all : bool) : list string :=
  ["rev-list"; "--children"; "--reverse"; "--pretty=%aI %T %P"]
  ++ (if topo_order then ["--topo-order"] else [])
  ++ (if all
      then (if bool_decide ("--all" ∈ git_args) then [] else ["--all"])
      else (if bool_decide ("--branches" ∈ git_args) then []
            else ["--branches"]))
  ++ match filenames with
     | [] => []
     | _ :: _ => "--" :: filenames
     end.

(** The [while] loop of [iter_commit_hashes]; [line] is
    [decode(line).split()]. *)
Fixpoint hashes_loop (offset count : Z) (commit : gmap string (value datetime))
    (cur_count : Z) (stdout : list string)
    : list (gmap string (value datetime)) * outcome exn :=
  if within offset count cur_count then
    match stdout with
    | [] => ([], Return)
    | raw :: rest =>
        match split_ws raw with
        | [] => ([], Raise IndexError)
        | word :: words =>
            if String.eqb word "commit" then
              match words with
              | [] => ([], Raise IndexError)
              | hash :: children =>
                  hashes_loop offset count
                    (<["children_hash" := VList children]>
                       (<["hash" := VStr hash]> commit))
                    cur_count rest
              end
            else
              match words with
              | [] => ([], Raise IndexError)
              | tree_hash :: parents =>
                  yield_then
                    [<["parent_hash" := VList parents]>
                       (<["tree_hash" := VStr tree_hash]>
                          (<["date" := VDate (parse_datetime word)]> commit))]
                    (hashes_loop offset count ∅ (cur_count + 1) rest)
              end
        end
    end
  else ([], Return).

(** [iter_commit_hashes]: what it yields, how it ends, and the lines
    logged. *)
Definition iter_commit_hashes (self : Giterator) (filenames : list string)
    (offset count : Z) (topo_order all : bool)
    : list (gmap string (value datetime)) * outcome exn * list string :=
  match _git_args self with
  | None => ([], Raise (AttributeError "_git_args"), [])
  | Some git_args =>
      let args :=
        _no_duplicate_args
          (GIT_COMMAND :: hashes_command git_args filenames topo_order all) in
      (hashes_loop offset count ∅ 0 (stdout_of args),
       _log self (join_spaces args))
  end.

End CommitHashes.

End Git.

(** ** The first and the last commit *)

Module OneShot.

Section FirstCommit.

Context {datetime : Type}.
Variable parse_datetime : string -> datetime.
Variable get_git_renaming : string -> option (string * string).

(** [for x in generator: return x], and [None] when the loop ends: the
    generator is resumed no further than its first [yield]. *)
Definition first_yield {A E} (g : list A * outcome E) : result E (option A) :=
  match g with
  | (x :: _, _) => Ok (Some x)
  | ([], Return) => Ok None
  | ([], Raise e) => Err e
  end.

(** [first_commit], given the lines of its [git log --reverse] process. *)
Definition first_commit (stdout : list string)
    : result (exn datetime) (option (gmap string (value datetime))) :=
  first_yield (iter_commits parse_datetime get_git_renaming 0 0 stdout).

(** [last_commit], given the lines of its [git log] process, which prints
    the newest commit first. *)
Definition last_commit (stdout : list string)
    : result (exn datetime) (option (gmap string (value datetime))) :=
  first_yield (iter_commits parse_datetime get_git_renaming 0 0 stdout).

End FirstCommit.

End OneShot.

(** Definitions used to state the properties of the queries. *)

Module GitSpec.

(** A record of the [git rev-list --children --pretty] output: the line of
    the commit and the line of the format. *)
Definition rev_record : Type := string * string.

(** A record is well formed when its first line reads [commit], a hash and
    the children, and its second line a date, a tree hash and the
    parents. *)
Definition record_ok (r : rev_record) : bool :=
  match split_ws r.1, split_ws r.2 with
  | word :: _ :: _, date :: _ :: _ =>
      String.eqb word "commit" && negb (String.eqb date "commit")
  | _, _ => false
  end.

(** The dictionary of a record. *)
Definition record_dict {datetime : Type} (parse_datetime : string -> datetime)
    (r : rev_record) : gmap string (value datetime) :=
  match split_ws r.1, split_ws r.2 with
  | _ :: hash :: children, date :: tree_hash :: parents =>
      <["parent_hash" := VList parents]>
        (<["tree_hash" := VStr tree_hash]>
           (<["date" := VDate (parse_datetime date)]>
              (<["children_hash" := VList children]>
                 (<["hash" := VStr hash]> ∅))))
  | _, _ => ∅
  end.

Definition records_stream (records : list rev_record) : list string :=
  concat (map (fun r : rev_record => [r.1; r.2]) records).

(** A repository of three commits, for the examples: what its commands
    print. *)
Definition sample_check_output (path : string) (args : list string)
    : option (list Byte.byte) :=
  if bool_decide (args = ["git"; "rev-list"; "--count"; "--branches"])
  then Some (list_byte_of_string "3") else None.

Definition sample_decode (b : list Byte.byte) : option string :=
  Some (string_of_list_byte b).

Definition sample_int (s : string) : option Z :=
  if String.eqb s "3" then Some 3 else None.

Definition sample_records : list rev_record :=
  [("commit h1 h2", "2021-03-04T05:06:07+01:00 t1");
   ("commit h2 h3", "2021-03-05T05:06:07+01:00 t2 h1");
   ("commit h3", "2021-03-06T05:06:07+01:00 t3 h2")].

End GitSpec.

(** ** The text of a file *)

Module FileText.
Import Archive.

Section Text.

(** [bytes.decode(encoding, errors)] belongs to Python: a parameter, given
    the name of the codec and the name of the error handler; [D] is the
    type of the exceptions it raises. *)
Context {D : Type}.
Variable bytes_decode :
  string -> string -> list Byte.byte -> result D string.

(** Python truth of an optional text argument: [None] and the empty text
    are false. *)
Definition given (argument : option string) : bool :=
  match argument with
  | Some (String _ _) => true
  | _ => false
  end.

(** The keys of the dictionary [kwargs], in the order of their
    insertion. *)
Definition kwargs_keys (encoding errors : option string) : list string :=
  (if given encoding then ["encoding"] else [])
  ++ (if given errors then ["errors"] else []).

(** [data.decode( *names )]: the positional parameters of [bytes.decode] are
    the codec, which defaults to ["utf-8"], and the error handler, which
    defaults to ["strict"]. *)
Definition decode_positional (names : list string) (data : list Byte.byte)
    : result D string :=
  match names with
  | [] => bytes_decode "utf-8" "strict" data
  | [a] => bytes_decode a "strict" data
  | a :: b :: _ => bytes_decode a b data
  end.

(** [File.text]: [self.content.decode( *kwargs )] unpacks the dictionary,
    that is, its keys. *)
Definition text (f : File) (buffer : BytesIO) (encoding errors : option string)
    : result (exn + D) string * File * BytesIO :=
  let names := kwargs_keys encoding errors in
  let '(r, f', buffer') := content f buffer in
  (match r with
   | Ok data =>
       match decode_positional names data with
       | Ok s => Ok s
       | Err d => Err (inr d)
       end
   | Err e => Err (inl e)
   end, f', buffer').

End Text.

(** [File.to_dict]: the values under ["name"], ["size"], ["mtime"] and
    ["data"]. *)
Definition to_dict (f : File) (buffer : BytesIO)
    : result exn (string * Z * Z * list Byte.byte) * File * BytesIO :=
  let '(r, f', buffer') := content f buffer in
  (match r with
   | Ok data => Ok (name (_tarinfo f), size (_tarinfo f), mtime (_tarinfo f), data)
   | Err e => Err e
   end, f', buffer').

(** The members an archive lists, and how the listing ends. *)
Fixpoint members_of (entries : list TarInfo) (ending : members) : members :=
  match entries with
  | [] => ending
  | tarinfo :: rest => TarMember tarinfo (members_of rest ending)
  end.

(** A decoder for the examples: it knows the codec ["utf-8"] only, and
    raises [LookupError] with the name of any other. *)
Definition sample_bytes_decode (encoding errors : string)
    (data : list Byte.byte) : result string string :=
  if String.eqb encoding "utf-8" then Ok (string_of_list_byte data)
  else Err (String.append "LookupError: unknown encoding: " encoding).

End FileText.

(** * Properties *)

(** ** The archive file reader *)

Module ArchiveFacts.
Import Archive.

Lemma fits_ssize_t_nonneg n :
  0 <= n <= PY_SSIZE_T_MAX -> fits_ssize_t n = true.
Proof.
  intros Hn. unfold fits_ssize_t, PY_SSIZE_T_MIN, PY_SSIZE_T_MAX in *.
  apply andb_true_intro. split; apply Z.leb_le; lia.
Qed.

Lemma seek_read_slice buffer offset size :
  0 <= offset <= PY_SSIZE_T_MAX -> 0 <= size <= PY_SSIZE_T_MAX ->
  exists buffer1 buffer2,
    seek buffer offset = Ok buffer1
    /\ read buffer1 size
       = Ok (slice (getvalue buffer) offset (offset + size), buffer2)
    /\ getvalue buffer2 = getvalue buffer.
Proof.
  intros Ho Hs. unfold seek, read, slice.
  rewrite (fits_ssize_t_nonneg offset Ho), (fits_ssize_t_nonneg size Hs).
  destruct (offset <? 0) eqn:E; [apply Z.ltb_lt in E; lia|].
  destruct (size <? 0) eqn:E'; [apply Z.ltb_lt in E'; lia|].
  simpl. eexists _, _. split; [reflexivity|].
  replace (offset + size - offset) with size by lia.
  split; reflexivity.
Qed.

(** Outside the range of a [Py_ssize_t] both operations raise
    [OverflowError]; inside it, [seek] refuses a negative offset. *)
Lemma seek_raises buffer offset :
  (fits_ssize_t offset = false -> seek buffer offset = Err OverflowError)
  /\ (PY_SSIZE_T_MIN <= offset < 0 -> seek buffer offset = Err ValueError).
Proof.
  unfold seek. split.
  - by intros ->.
  - intros [Hlo Hneg]. unfold fits_ssize_t.
    replace (PY_SSIZE_T_MIN <=? offset) with true
      by (symmetry; apply Z.leb_le; lia).
    replace (offset <=? PY_SSIZE_T_MAX) with true
      by (symmetry; apply Z.leb_le; unfold PY_SSIZE_T_MAX; lia).
    cbn [andb negb].
    by replace (offset <? 0) with true by (symmetry; apply Z.ltb_lt; lia).
Qed.

Lemma read_raises buffer size :
  fits_ssize_t size = false -> read buffer size = Err OverflowError.
Proof. unfold read. by intros ->. Qed.

Lemma seek_negative buffer offset :
  offset < 0 ->
  seek buffer offset
  = Err (if fits_ssize_t offset then ValueError else OverflowError).
Proof.
  intros Hneg. unfold seek. destruct (fits_ssize_t offset); cbn [negb].
  - by replace (offset <? 0) with true by (symmetry; apply Z.ltb_lt; lia).
  - reflexivity.
Qed.

Lemma read_extents_slices extents : forall data buffer,
  Forall extent_ok extents ->
  exists buffer',
    read_extents data extents buffer
    = (Ok (), data ++ concat (map (extent_bytes (getvalue buffer)) extents),
       buffer')
    /\ getvalue buffer' = getvalue buffer.
Proof.
  induction extents as [|[o l] rest IH]; intros data buffer Hok.
  - exists buffer. simpl. by rewrite app_nil_r.
  - inversion Hok as [|? ? [Ho Hl] Hrest]; subst. simpl in Ho, Hl.
    destruct (seek_read_slice buffer o l Ho Hl) as (b1 & b2 & Hs & Hr & Hv).
    destruct (IH (data ++ slice (getvalue buffer) o (o + l)) b2 Hrest)
      as (b3 & Hrec & Hv3).
    exists b3. cbn [read_extents map concat]. rewrite Hs, Hr, Hrec, Hv.
    split; [|congruence].
    unfold extent_bytes at 2. cbn [fst snd]. by rewrite <- app_assoc.
Qed.

(** C9. The content of a sparse file whose extents have offsets and
    sizes that are not negative and fit a [Py_ssize_t] is, on first
    access, the concatenation, in the order of the extents, of the ranges
    [buffer[o : o + l]] of the shared archive image; the image is left as
    it was, and a second access returns the same bytes. (Outside that
    range [seek] or [read] raises, see [seek_raises] and
    [read_raises].) *)
Theorem sparse_content_is_concat_of_extents
    (tarinfo : TarInfo) (extents : list (Z * Z)) (buffer : BytesIO) :
  sparse tarinfo = Some extents ->
  Forall extent_ok extents ->
  let '(r, f', buffer') := content (File_init tarinfo) buffer in
  r = Ok (concat (map (extent_bytes (getvalue buffer)) extents))
  /\ getvalue buffer' = getvalue buffer
  /\ (content f' buffer').1.1 = r.
Proof.
  intros Hsp Hok. unfold content, File_init. simpl. rewrite Hsp.
  destruct (read_extents_slices extents [] buffer Hok) as (b' & Hr & Hv).
  rewrite Hr. simpl. auto.
Qed.

Lemma sparse_content_is_concat_of_extents_witness :
  let '(r, _, _) :=
    content (File_init sample_sparse) {| getvalue := sample_image; tell := 0 |} in
  r = Ok (list_byte_of_string "0123abcd")
  /\ r <> Ok (take 14 sample_image).
Proof.
  pose proof (sparse_content_is_concat_of_extents sample_sparse
                [(0, 4); (10, 4)] {| getvalue := sample_image; tell := 0 |}
                eq_refl) as H.
  assert (Hok : Forall extent_ok [(0, 4); (10, 4)]).
  { repeat constructor; unfold PY_SSIZE_T_MAX; simpl; lia. }
  specialize (H Hok).
  destruct (content (File_init sample_sparse) _) as [[r f'] b'].
  destruct H as (Hr & _ & _). subst r.
  split; [reflexivity | discriminate].
Defined.

(** C8. When opening the archive image fails with a read error,
    [iter_files] yields nothing: it returns when no file names were
    requested, and raises when some were; the exception raised carries the
    standard error of the process, decoded as the detail of a
    [ReadError] (as the bytes themselves when they are not UTF-8). *)
Theorem iter_files_read_error
    (tarfile_open : list Byte.byte -> members)
    (decode_utf8 : list Byte.byte -> option string)
    (filenames : option (list string)) (stdout stderr : list Byte.byte) :
  tarfile_open stdout = TarReadError ->
  (requested filenames = false ->
     iter_files tarfile_open decode_utf8 filenames stdout stderr
     = ([], Return))
  /\ (requested filenames = true ->
        iter_files tarfile_open decode_utf8 filenames stdout stderr
        = ([], Raise (match decode_utf8 stderr with
                      | Some detail => ReadError detail
                      | None => UnicodeDecodeError stderr
                      end))).
Proof.
  intros Hopen. unfold iter_files. rewrite Hopen. simpl.
  split; intros ->; simpl; [reflexivity|].
  by destruct (decode_utf8 stderr).
Qed.

Lemma iter_files_read_error_witness :
  iter_files (fun _ => TarReadError) decode_latin None []
    (list_byte_of_string "fatal: not a tree object")
  = ([], Return)
  /\ iter_files (fun _ => TarReadError) decode_latin (Some ["a.txt"]) []
       (list_byte_of_string "fatal: pathspec did not match")
     = ([], Raise (ReadError "fatal: pathspec did not match")).
Proof.
  split.
  - apply (iter_files_read_error (fun _ => TarReadError) decode_latin None []
             (list_byte_of_string "fatal: not a tree object") eq_refl).
    reflexivity.
  - apply (iter_files_read_error (fun _ => TarReadError) decode_latin
             (Some ["a.txt"]) []
             (list_byte_of_string "fatal: pathspec did not match") eq_refl).
    reflexivity.
Defined.

End ArchiveFacts.

(** ** The branch reconstructor *)

Section ReconstructorFacts.

Context {Commit E : Type}.
Variable hash : Commit -> string.
Variable parent_hash : Commit -> list string.


Lemma try_append_cases added c b parents :
  try_append hash added c b parents = (b, added)
  \/ (added = false /\ try_append hash added c b parents = (append b c, true)).
Proof.
  induction parents as [|p ps IH]; simpl; [by left|].
  destruct added; simpl; [exact IH|].
  destruct (String.eqb p (hash (tip b))); [by right | exact IH].
Qed.

Lemma try_append_match c b parents :
  hash (tip b) ∈ parents ->
  try_append hash false c b parents = (append b c, true).
Proof.
  induction parents as [|p ps IH]; intros Hin; [by apply elem_of_nil in Hin|].
  simpl. destruct (String.eqb_spec p (hash (tip b))) as [|Hne]; [done|].
  apply elem_of_cons in Hin as [Heq|Hin]; [congruence | by apply IH].
Qed.

Lemma try_append_no_match added c b parents :
  hash (tip b) ∉ parents ->
  try_append hash added c b parents = (b, added).
Proof.
  induction parents as [|p ps IH]; intros Hin; [done|].
  simpl. apply not_elem_of_cons in Hin as [Hne Hin].
  destruct (String.eqb_spec p (hash (tip b))) as [|_]; [congruence|].
  rewrite andb_false_r. by apply IH.
Qed.

Lemma branch_commits_append (b : branch Commit) (c : Commit) :
  branch_commits (append b c) = branch_commits b ++ [c].
Proof. reflexivity. Qed.

(** The loop over the open branches keeps the branches that are not
    evicted and yields, in order, one run per evicted branch. *)
Lemma scan_offered bl ba c : forall branches added,
  scan hash parent_hash bl ba c branches added
  = (filter (fun b => evicted bl ba b = false) (offered hash parent_hash c branches added).1,
     map branch_commits
       (filter (fun b => evicted bl ba b = true) (offered hash parent_hash c branches added).1),
     (offered hash parent_hash c branches added).2).
Proof.
  induction branches as [|b rest IH]; intros added; [reflexivity|].
  cbn [scan offered].
  destruct (try_append hash added c b (parent_hash c)) as [b1 added1].
  rewrite IH. destruct (offered hash parent_hash c rest added1) as [bs added2]. cbn [fst snd].
  rewrite !filter_cons.
  destruct (evicted bl ba _) eqn:Hev.
  - rewrite decide_False by done. rewrite decide_True by done. reflexivity.
  - rewrite decide_True by done. rewrite decide_False by done. reflexivity.
Qed.

Lemma offered_buffered c : forall branches added,
  buffered (offered hash parent_hash c branches added).1
  ≡ₚ buffered branches
     ++ (if negb added && (offered hash parent_hash c branches added).2 then [c] else [])
  /\ (added = true -> (offered hash parent_hash c branches added).2 = true).
Proof.
  induction branches as [|b rest IH]; intros added.
  - simpl. rewrite andb_negb_l. done.
  - cbn [offered].
    destruct (try_append_cases added c b (parent_hash c)) as [H|[-> H]];
      rewrite H; clear H.
    + destruct (IH added) as [IHp IHa].
      destruct (offered hash parent_hash c rest added) as [bs added2]. cbn [fst snd] in *.
      split; [|exact IHa].
      unfold buffered in *. cbn [map concat].
      change (branch_commits (Branch (age b + 1) (first_commit b) (later_commits b)))
        with (branch_commits b).
      rewrite IHp. by rewrite app_assoc.
    + destruct (IH true) as [IHp IHa]. specialize (IHa eq_refl).
      destruct (offered hash parent_hash c rest true) as [bs added2]. cbn [fst snd] in *.
      subst added2. split; [|done].
      unfold buffered in *. cbn [map concat negb andb] in *.
      change (branch_commits (Branch (age (append b c) + 1) _ _))
        with (branch_commits b ++ [c]).
      rewrite IHp, app_nil_r.
      rewrite <- !app_assoc. apply Permutation_app_head, Permutation_app_comm.
Qed.

Lemma filter_split_buffered (P : branch Commit -> bool) bs :
  buffered (filter (fun b => P b = false) bs)
  ++ concat (map branch_commits (filter (fun b => P b = true) bs))
  ≡ₚ buffered bs.
Proof.
  unfold buffered. induction bs as [|b bs IH]; [done|].
  rewrite !filter_cons. destruct (P b) eqn:HP.
  - rewrite decide_False by done. rewrite decide_True by done.
    cbn [map concat]. rewrite <- IH.
    rewrite !app_assoc. apply Permutation_app_tail, Permutation_app_comm.
  - rewrite decide_True by done. rewrite decide_False by done.
    cbn [map concat]. rewrite <- IH. by rewrite app_assoc.
Qed.

(** A turn of the main loop neither loses nor duplicates a commit. *)
Lemma step_conserves bl ba branches c :
  buffered (step hash parent_hash bl ba branches c).1 ++ concat (step hash parent_hash bl ba branches c).2
  ≡ₚ buffered branches ++ [c].
Proof.
  unfold step. destruct (parent_hash c) as [|p ps] eqn:Hp.
  - cbn [fst snd concat]. rewrite app_nil_r. unfold buffered.
    rewrite map_app, concat_app. simpl. done.
  - clear Hp. rewrite scan_offered.
    destruct (offered_buffered c branches false) as [Hperm _].
    pose proof (filter_split_buffered (evicted bl ba) (offered hash parent_hash c branches false).1)
      as Hsplit.
    destruct (offered hash parent_hash c branches false) as [bs added]. cbn [fst snd negb andb] in *.
    destruct added; cbn [fst snd].
    + by rewrite Hsplit, Hperm.
    + unfold buffered at 1. rewrite map_app, concat_app.
      fold (buffered (filter (fun b => evicted bl ba b = false) bs)).
      cbn [map concat]. rewrite app_nil_r in *.
      rewrite <- Hperm, <- Hsplit.
      rewrite <- !app_assoc. apply Permutation_app_head, Permutation_app_comm.
Qed.

Lemma consecutive_loop_conserves bl ba commits : forall branches,
  concat (consecutive_loop (E := E) hash parent_hash bl ba branches commits Return).1
  ≡ₚ buffered branches ++ commits
  /\ (consecutive_loop (E := E) hash parent_hash bl ba branches commits Return).2 = Return.
Proof.
  induction commits as [|c rest IH]; intros branches.
  - simpl. by rewrite app_nil_r.
  - cbn [consecutive_loop].
    pose proof (step_conserves bl ba branches c) as Hstep.
    destruct (step hash parent_hash bl ba branches c) as [branches' runs].
    cbn [fst snd] in Hstep.
    destruct (IH branches') as [IHp IHr].
    unfold yield_then. cbn [fst snd]. split; [|exact IHr].
    rewrite concat_app, IHp.
    transitivity ((buffered branches' ++ concat runs) ++ rest).
    + rewrite app_assoc. apply Permutation_app_tail, Permutation_app_comm.
    + rewrite Hstep. by rewrite <- app_assoc.
Qed.

Lemma offered_no_match d : forall branches added,
  (forall b, b ∈ branches -> hash (tip b) ∉ parent_hash d) ->
  (offered hash parent_hash d branches added).2 = added.
Proof.
  induction branches as [|b rest IH]; intros added Hno; [reflexivity|].
  cbn [offered].
  rewrite try_append_no_match by (apply Hno; left).
  specialize (IH added (fun b' Hb' => Hno b' (list_elem_of_further _ _ _ Hb'))).
  destruct (offered hash parent_hash d rest added) as [bs added2]. exact IH.
Qed.

Lemma offered_age c : forall branches added b,
  Forall (fun b => 0 <= age b) branches ->
  b ∈ (offered hash parent_hash c branches added).1 -> 1 <= age b.
Proof.
  induction branches as [|b0 rest IH]; intros added b Hage Hin.
  - by apply elem_of_nil in Hin.
  - cbn [offered] in Hin. inversion Hage as [|? ? H0 Hrest]; subst.
    destruct (try_append_cases added c b0 (parent_hash c)) as [H|[-> H]];
      rewrite H in Hin; clear H.
    + specialize (IH added b Hrest).
      destruct (offered hash parent_hash c rest added) as [bs added2]. cbn [fst] in *.
      apply elem_of_cons in Hin as [->|Hin]; [simpl; lia | auto].
    + specialize (IH true b Hrest).
      destruct (offered hash parent_hash c rest true) as [bs added2]. cbn [fst] in *.
      apply elem_of_cons in Hin as [->|Hin]; [simpl; lia | auto].
Qed.

Lemma step_offered bl ba branches c :
  parent_hash c <> [] ->
  step hash parent_hash bl ba branches c
  = (filter (fun b => evicted bl ba b = false) (offered hash parent_hash c branches false).1
     ++ (if (offered hash parent_hash c branches false).2 then [] else [new_branch c]),
     map branch_commits
       (filter (fun b => evicted bl ba b = true) (offered hash parent_hash c branches false).1)).
Proof.
  intros Hp. unfold step. destruct (parent_hash c) eqn:E'; [done|].
  rewrite scan_offered. destruct (offered hash parent_hash c branches false) as [bs added].
  cbn [fst snd]. destruct added; [by rewrite app_nil_r | done].
Qed.

Lemma filter_kept_one (bl ba : Z) (b : branch Commit) :
  evicted bl ba b = false ->
  filter (fun b => evicted bl ba b = false) [b] = [b]
  /\ filter (fun b => evicted bl ba b = true) [b] = [].
Proof.
  intros He. rewrite !filter_cons, !filter_nil.
  rewrite decide_True by exact He.
  rewrite decide_False by (rewrite He; discriminate). done.
Qed.

Lemma filter_evicted_one (bl ba : Z) (b : branch Commit) :
  evicted bl ba b = true ->
  filter (fun b => evicted bl ba b = false) [b] = []
  /\ filter (fun b => evicted bl ba b = true) [b] = [b].
Proof.
  intros He. rewrite !filter_cons, !filter_nil.
  rewrite decide_False by (rewrite He; discriminate).
  rewrite decide_True by exact He. done.
Qed.

(** C4. Whatever the two bounds, every commit of the sequence consumed is
    yielded exactly once: what [iter_commits_consecutive] yields is a
    permutation of the commits it was given, and it returns. *)
Theorem iter_commits_consecutive_permutation
    (branch_length branch_age : Z) (commits : list Commit) :
  ((iter_commits_consecutive (E := E) hash parent_hash branch_length branch_age
      (commits, Return)).1 ≡ₚ commits)
  /\ (iter_commits_consecutive (E := E) hash parent_hash branch_length
        branch_age (commits, Return)).2 = Return.
Proof.
  unfold iter_commits_consecutive, consecutive_runs. cbn [fst snd].
  destruct (consecutive_loop_conserves branch_length branch_age commits [])
    as [Hperm Hret].
  split; [exact Hperm | exact Hret].
Qed.

(** The age counters are never negative at any turn of the loop. *)
Lemma step_ages_nonneg bl ba branches c :
  Forall (fun b => 0 <= age b) branches ->
  Forall (fun b => 0 <= age b) (step hash parent_hash bl ba branches c).1.
Proof.
  intros Hage. destruct (decide (parent_hash c = [])) as [Hp|Hp].
  - unfold step. rewrite Hp. cbn [fst]. apply Forall_app. split; [done|].
    by repeat constructor.
  - rewrite step_offered by done. cbn [fst]. apply Forall_app. split.
    + apply Forall_forall. intros b [_ Hb]%list_elem_of_filter.
      pose proof (offered_age c branches false b Hage Hb). lia.
    + destruct ((offered hash parent_hash c branches false).2);
        by repeat constructor.
Qed.

Lemma elem_of_buffered (bs : list (branch Commit)) b x :
  b ∈ bs -> x ∈ branch_commits b -> x ∈ buffered bs.
Proof.
  unfold buffered. induction bs as [|b0 bs IH]; intros Hb Hx.
  - by apply elem_of_nil in Hb.
  - cbn [map concat]. apply elem_of_app.
    apply elem_of_cons in Hb as [->|Hb]; [by left | right; by apply IH].
Qed.

Lemma elem_of_runs (runs : list (list Commit)) run x :
  run ∈ runs -> x ∈ run -> x ∈ concat runs.
Proof.
  induction runs as [|r runs IH]; intros Hr Hx.
  - by apply elem_of_nil in Hr.
  - cbn [concat]. apply elem_of_app.
    apply elem_of_cons in Hr as [->|Hr]; [by left | right; by apply IH].
Qed.

(** A commit an open branch holds after a turn was held before it, or is
    the commit of the turn. *)
Lemma step_members bl ba branches c x :
  x ∈ buffered (step hash parent_hash bl ba branches c).1 ->
  x ∈ buffered branches \/ x = c.
Proof.
  intros Hx.
  assert (Hin : x ∈ buffered (step hash parent_hash bl ba branches c).1
                    ++ concat (step hash parent_hash bl ba branches c).2)
    by (apply elem_of_app; by left).
  rewrite step_conserves in Hin.
  apply elem_of_app in Hin as [Hin|Hin]; [by left|].
  right. by apply list_elem_of_singleton in Hin.
Qed.

Lemma branches_after_members bl ba later : forall branches x,
  x ∈ buffered (branches_after hash parent_hash bl ba branches later) ->
  x ∈ buffered branches \/ x ∈ later.
Proof.
  induction later as [|d later IH]; intros branches x Hx; [by left|].
  cbn [branches_after fold_left] in Hx.
  apply IH in Hx as [Hx|Hx].
  - apply step_members in Hx as [Hx| ->]; [by left|]. right. by left.
  - right. by right.
Qed.

(** The main loop is the loop over a first part of the commits, followed
    by the loop over the rest from the open branches then reached. *)
Lemma consecutive_loop_after bl ba first : forall branches rest ending,
  exists runs,
    consecutive_loop (E := E) hash parent_hash bl ba branches
      (first ++ rest) ending
    = yield_then runs
        (consecutive_loop hash parent_hash bl ba
           (branches_after hash parent_hash bl ba branches first) rest ending).
Proof.
  induction first as [|c first IH]; intros branches rest ending.
  - exists []. cbn [app branches_after fold_left]. unfold yield_then.
    by destruct (consecutive_loop _ _ _ _ _ _ _).
  - cbn [app consecutive_loop branches_after fold_left].
    destruct (step hash parent_hash bl ba branches c) as [branches' runs]
      eqn:Hstep.
    cbn [fst].
    destruct (IH branches' rest ending) as (runs' & ->).
    exists (runs ++ runs'). unfold yield_then. cbn [fst snd].
    by rewrite app_assoc.
Qed.

(** Whatever way the commit sequence ends, what was yielded is part of
    the commits held and consumed, each taken as often as it occurs. *)
Lemma consecutive_loop_within bl ba commits : forall branches ending,
  exists unyielded,
    concat (consecutive_loop (E := E) hash parent_hash bl ba branches commits
              ending).1 ++ unyielded
    ≡ₚ buffered branches ++ commits.
Proof.
  induction commits as [|c rest IH]; intros branches ending.
  - destruct ending as [|e].
    + exists []. simpl. by rewrite !app_nil_r.
    + exists (buffered branches). simpl. by rewrite app_nil_r.
  - cbn [consecutive_loop].
    pose proof (step_conserves bl ba branches c) as Hstep.
    destruct (step hash parent_hash bl ba branches c) as [branches' runs].
    cbn [fst snd] in Hstep.
    destruct (IH branches' ending) as (unyielded & IHp).
    exists unyielded. unfold yield_then. cbn [fst].
    rewrite concat_app, <- app_assoc, IHp.
    transitivity ((buffered branches' ++ concat runs) ++ rest).
    + rewrite app_assoc. apply Permutation_app_tail, Permutation_app_comm.
    + rewrite Hstep. by rewrite <- app_assoc.
Qed.

(** C5. When a commit with parents is processed, a branch that then meets
    the eviction test has its commits yielded as one run during that very
    turn, and the open branches afterwards are exactly the offered
    branches that do not meet the test, followed by the branch of the
    commit when no branch took it. When the commits held and those that
    follow are pairwise distinct, then whatever commits follow (a commit
    that names the last commit of the evicted branch as a parent among
    them), no branch open at any later turn holds a commit of the evicted
    branch, so that nothing is appended to it; and in the output the run
    of the evicted branch stands as it was yielded, no other run holding
    any of its commits. *)
Theorem evicted_branch_is_closed
    (branch_length branch_age : Z) (branches : list (branch Commit))
    (c : Commit) (b : branch Commit) :
  parent_hash c <> [] ->
  b ∈ (offered hash parent_hash c branches false).1 ->
  evicted branch_length branch_age b = true ->
  let branches' := (step hash parent_hash branch_length branch_age branches c).1 in
  let runs := (step hash parent_hash branch_length branch_age branches c).2 in
  branch_commits b ∈ runs
  /\ branches'
     = filter (fun b' => evicted branch_length branch_age b' = false)
         (offered hash parent_hash c branches false).1
       ++ (if (offered hash parent_hash c branches false).2 then []
           else [new_branch c])
  /\ (forall later : list Commit,
        NoDup (buffered branches ++ c :: later) ->
        (forall taken b',
           taken `prefix_of` later ->
           b' ∈ branches_after hash parent_hash branch_length branch_age
                  branches' taken ->
           forall x, x ∈ branch_commits b -> x ∉ branch_commits b')
        /\ (forall ending, exists before after,
              (consecutive_loop (E := E) hash parent_hash branch_length
                 branch_age branches (c :: later) ending).1
              = before ++ branch_commits b :: after
              /\ forall x, x ∈ branch_commits b ->
                   (x ∉ concat before) /\ (x ∉ concat after))).
Proof.
  intros Hp Hin Hev. cbn zeta.
  assert (Hrun : branch_commits b ∈ (step hash parent_hash branch_length branch_age branches c).2).
  { rewrite step_offered by done. cbn [snd].
    apply list_elem_of_In, in_map, list_elem_of_In.
    by apply list_elem_of_filter. }
  split; [exact Hrun|]. split; [by rewrite step_offered|].
  intros later Hnd. split.
  - intros taken b' [dropped ->] Hb' x Hx Hx'.
    replace (buffered branches ++ c :: taken ++ dropped)
      with ((buffered branches ++ [c]) ++ taken ++ dropped) in Hnd
      by (by rewrite <- app_assoc).
    apply NoDup_app in Hnd as (Hnd1 & Hdisj & _).
    rewrite <- (step_conserves branch_length branch_age branches c) in Hnd1.
    apply NoDup_app in Hnd1 as (_ & Hopen & _).
    assert (Hxr : x ∈ concat (step hash parent_hash branch_length branch_age branches c).2)
      by exact (elem_of_runs _ _ _ Hrun Hx).
    pose proof (elem_of_buffered _ _ _ Hb' Hx') as Hheld.
    apply branches_after_members in Hheld as [Hheld|Hheld].
    + exact (Hopen x Hheld Hxr).
    + apply (Hdisj x); [|apply elem_of_app; by left].
      rewrite <- (step_conserves branch_length branch_age branches c).
      apply elem_of_app. by right.
  - intros ending.
    destruct (consecutive_loop_within branch_length branch_age (c :: later)
                branches ending) as (unyielded & Hperm).
    rewrite <- Hperm in Hnd. apply NoDup_app in Hnd as (Hnd & _ & _).
    cbn [consecutive_loop] in Hnd |- *.
    destruct (step hash parent_hash branch_length branch_age branches c) as [branches' runs].
    cbn [snd] in Hrun. apply list_elem_of_split in Hrun as (l1 & l2 & ->).
    unfold yield_then in Hnd |- *. cbn [fst] in Hnd |- *.
    exists l1, (l2 ++ (consecutive_loop (E := E) hash parent_hash branch_length branch_age branches' later
                         ending).1).
    split; [by rewrite <- app_assoc|].
    rewrite <- app_assoc in Hnd. cbn [app] in Hnd.
    rewrite concat_app in Hnd. cbn [concat] in Hnd.
    apply NoDup_app in Hnd as (_ & Hbefore & Hnd).
    apply NoDup_app in Hnd as (_ & Hafter & _).
    intros x Hx. split.
    + intros Hx'. apply (Hbefore x Hx'). apply elem_of_app. by left.
    + exact (Hafter x Hx).
Qed.

(** C6. With [branch_length = 100] (and a [branch_age] of at least 2, as the
    default 100 is), three commits of which the first has no parent, the
    second names the first and the third names the second among its parents
    come out as the one run [[C1, C2, C3]]; and two commits of which the
    second does not name the first among its parents come out as two runs
    of one commit each, whatever the bounds. *)
Theorem linear_history_one_run_unrelated_two_runs :
  (forall (c1 c2 c3 : Commit) (branch_age : Z),
     parent_hash c1 = [] ->
     hash c1 ∈ parent_hash c2 ->
     hash c2 ∈ parent_hash c3 ->
     2 <= branch_age ->
     consecutive_runs (E := E) hash parent_hash 100 branch_age
       ([c1; c2; c3], Return) = ([[c1; c2; c3]], Return)
     /\ iter_commits_consecutive (E := E) hash parent_hash 100 branch_age
          ([c1; c2; c3], Return) = ([c1; c2; c3], Return))
  /\ (forall (a b : Commit) (branch_length branch_age : Z),
        hash a ∉ parent_hash b ->
        consecutive_runs (E := E) hash parent_hash branch_length branch_age
          ([a; b], Return) = ([[a]; [b]], Return)).
Proof.
  split.
  - intros c1 c2 c3 ba H1 H2 H3 Hba.
    assert (Hruns : consecutive_runs (E := E) hash parent_hash 100 ba
                      ([c1; c2; c3], Return) = ([[c1; c2; c3]], Return)).
    { unfold consecutive_runs. cbn [fst snd consecutive_loop].
      unfold step at 1. rewrite H1. cbn [app].
      assert (Hp2 : parent_hash c2 <> []).
      { intros Heq. rewrite Heq in H2. by apply elem_of_nil in H2. }
      assert (Hp3 : parent_hash c3 <> []).
      { intros Heq. rewrite Heq in H3. by apply elem_of_nil in H3. }
      rewrite (step_offered 100 ba [new_branch c1] c2 Hp2).
      cbn [offered fst snd].
      rewrite (try_append_match c2 (new_branch c1) (parent_hash c2) H2).
      cbn [fst snd age first_commit later_commits append new_branch app].
      assert (He2 : evicted 100 ba (Branch (0 + 1) c1 [c2]) = false).
      { unfold evicted. simpl. apply Z.ltb_ge. lia. }
      destruct (filter_kept_one _ _ _ He2) as [-> ->].
      cbn [app map].
      rewrite (step_offered 100 ba [Branch (0 + 1) c1 [c2]] c3 Hp3).
      cbn [offered fst snd].
      rewrite (try_append_match c3 (Branch (0 + 1) c1 [c2]) (parent_hash c3) H3).
      cbn [fst snd age first_commit later_commits append app].
      assert (He3 : evicted 100 ba (Branch (0 + 1 + 1) c1 [c2; c3]) = false).
      { unfold evicted. simpl. apply Z.ltb_ge. lia. }
      destruct (filter_kept_one _ _ _ He3) as [-> ->].
      reflexivity. }
    split; [exact Hruns|].
    unfold iter_commits_consecutive. rewrite Hruns. reflexivity.
  - intros a b bl ba Hab.
    unfold consecutive_runs. cbn [fst snd consecutive_loop].
    assert (Ha : step hash parent_hash bl ba [] a = ([new_branch a], [])).
    { unfold step. by destruct (parent_hash a). }
    rewrite Ha. unfold yield_then at 1. cbn [fst snd app].
    destruct (decide (parent_hash b = [])) as [Hpb|Hp].
    + unfold step. rewrite Hpb. reflexivity.
    +
      rewrite (step_offered bl ba [new_branch a] b Hp).
      cbn [offered fst snd].
      rewrite (try_append_no_match false b (new_branch a) (parent_hash b) Hab).
      cbn [fst snd age first_commit later_commits new_branch].
      destruct (evicted bl ba (Branch (0 + 1) a [])) eqn:Hev.
      * destruct (filter_evicted_one _ _ _ Hev) as [-> ->]. reflexivity.
      * destruct (filter_kept_one _ _ _ Hev) as [-> ->]. reflexivity.
Qed.

End ReconstructorFacts.

Lemma evicted_branch_is_closed_witness :
  let b := Branch 1 k1 [] in
  let branches' := (step fst snd 100 0 [new_branch k1] k4).1 in
  let runs := (step fst snd 100 0 [new_branch k1] k4).2 in
  (branch_commits b ∈ runs
   /\ branches'
      = filter (fun b' => evicted 100 0 b' = false)
          (offered fst snd k4 [new_branch k1] false).1
        ++ (if (offered fst snd k4 [new_branch k1] false).2 then []
            else [new_branch k4])
   /\ (forall later : list example_commit,
         NoDup (buffered [new_branch k1] ++ k4 :: later) ->
         (forall taken b',
            taken `prefix_of` later ->
            b' ∈ branches_after fst snd 100 0 branches' taken ->
            forall x, x ∈ branch_commits b -> x ∉ branch_commits b')
         /\ (forall ending : outcome unit, exists before after,
               (consecutive_loop fst snd 100 0 [new_branch k1] (k4 :: later)
                  ending).1
               = before ++ branch_commits b :: after
               /\ forall x, x ∈ branch_commits b ->
                    (x ∉ concat before) /\ (x ∉ concat after))))
  /\ NoDup (buffered [new_branch k1] ++ k4 :: [k5])
  /\ fst (tip b) ∈ snd k5
  /\ consecutive_runs (E := unit) fst snd 100 0 ([k1; k4; k5], Return)
     = ([[k1]; [k4]; [k5]], Return).
Proof.
  split; [|split; [|split]].
  - apply (evicted_branch_is_closed (E := unit) fst snd 100 0 [new_branch k1]
             k4 (Branch 1 k1 [])).
    + discriminate.
    + simpl. apply list_elem_of_here.
    + reflexivity.
  - apply (bool_decide_unpack _). vm_compute. reflexivity.
  - simpl. apply list_elem_of_here.
  - reflexivity.
Defined.

Lemma linear_history_one_run_unrelated_two_runs_witness :
  consecutive_runs (E := unit) fst snd 100 100 ([k1; k2; k3], Return)
  = ([[k1; k2; k3]], Return)
  /\ consecutive_runs (E := unit) fst snd 100 100 ([k1; k4], Return)
     = ([[k1]; [k4]], Return).
Proof.
  destruct (linear_history_one_run_unrelated_two_runs (E := unit)
              (@fst string (list string)) (@snd string (list string)))
    as [Hline Htwo].
  split.
  - apply (Hline k1 k2 k3 100).
    + reflexivity.
    + apply list_elem_of_here.
    + apply list_elem_of_here.
    + lia.
  - apply (Htwo k1 k4 100 100).
    simpl. intros Hin. apply list_elem_of_singleton in Hin. discriminate.
Defined.

(** ** Strings *)

Lemma rstrip_idempotent s : rstrip (rstrip s) = rstrip s.
Proof.
  induction s as [|c s IH]; [reflexivity|].
  cbn [rstrip]. destruct (is_space c && is_empty (rstrip s)) eqn:E'.
  - reflexivity.
  - cbn [rstrip]. rewrite IH, E'. reflexivity.
Qed.

Lemma string_eqb_false (a b : string) : a <> b -> String.eqb a b = false.
Proof. intros H. by apply String.eqb_neq. Qed.

Lemma is_empty_true s : is_empty s = true -> s = EmptyString.
Proof. by destruct s. Qed.

Lemma lstrip_nonspace c s : is_space c = false -> lstrip (String c s) = String c s.
Proof. intros H. simpl. by rewrite H. Qed.

Lemma rstrip_head c s :
  is_space c = false -> rstrip (String c s) = String c (rstrip s).
Proof. intros H. cbn [rstrip]. by rewrite H. Qed.

Lemma strip_head c s :
  is_space c = false -> strip (String c s) = String c (rstrip s).
Proof.
  intros H. unfold strip. rewrite rstrip_head by done. by apply lstrip_nonspace.
Qed.

Lemma digit_not_space c : is_digit c = true -> is_space c = false.
Proof.
  destruct c as [[] [] [] [] [] [] [] []]; vm_compute; congruence.
Qed.

Lemma digit_not_lower c : is_digit c = true -> is_lower c = false.
Proof.
  destruct c as [[] [] [] [] [] [] [] []]; vm_compute; congruence.
Qed.

Lemma span_nonempty_head p s a b :
  span p s = (a, b) -> is_empty a = false ->
  exists c s', s = String c s' /\ p c = true.
Proof.
  destruct s as [|c s']; simpl; [intros [= <- <-]; discriminate|].
  destruct (p c) eqn:Hp; [eauto|]. intros [= <- <-]. discriminate.
Qed.

Lemma dash_or_digits_cases s r :
  Re.dash_or_digits s = Some r ->
  (exists rest, s = String "-" rest)
  \/ (exists ds rest, span is_digit s = (ds, rest) /\ is_empty ds = false).
Proof.
  unfold Re.dash_or_digits. destruct s as [|c s]; [discriminate|].
  destruct c as [[] [] [] [] [] [] [] []]; cbv beta iota;
    first
      [ by (intros _; left; eexists)
      | destruct (span is_digit _) as [ds rest] eqn:Hsp;
        destruct (is_empty ds) eqn:He;
        [discriminate | intros _; right; eauto] ].
Qed.

(** A line the numeric-stat pattern matches starts with a dash or a digit. *)
Lemma numstats_head line g :
  Re._RE_CHANGE_NUMSTATS line = Some g ->
  exists c s, line = String c s
    /\ is_space c = false /\ is_lower c = false.
Proof.
  unfold Re._RE_CHANGE_NUMSTATS. intros H.
  destruct (Re.dash_or_digits line) as [[a r1]|] eqn:Hd; [|discriminate].
  clear H. apply dash_or_digits_cases in Hd as [[rest ->]|(ds & rest & Hsp & He)].
  - eexists _, _. split; [reflexivity|]. by vm_compute.
  - destruct (span_nonempty_head _ _ _ _ Hsp He) as (c & s' & -> & Hdig).
    exists c, s'. split; [reflexivity|].
    split; [by apply digit_not_space | by apply digit_not_lower].
Qed.

Lemma numstats_not_summary line g :
  Re._RE_CHANGE_NUMSTATS line = Some g ->
  startswith "rename " line = false
  /\ Re._RE_CHANGE_SUMMARY (strip line) = None.
Proof.
  intros H. destruct (numstats_head line g H) as (c & s & -> & Hsp & Hlow).
  split.
  - cbn [startswith]. destruct (Ascii.eqb_spec "r" c) as [<-|_]; [|done].
    by vm_compute in Hlow.
  - rewrite strip_head by done. unfold Re._RE_CHANGE_SUMMARY.
    cbn [span]. rewrite Hlow. reflexivity.
Qed.

(** ** The log stream parser *)

Section ParserFacts.

Context {datetime : Type}.
Variable parse_datetime : string -> datetime.
Variable get_git_renaming : string -> option (string * string).

Lemma is_delimiter_false raw :
  is_delimiter raw = false ->
  String.eqb (rstrip raw) _DELIMITER1 = false
  /\ String.eqb (rstrip raw) delimiter2_line = false.
Proof.
  unfold is_delimiter. intros [H1 H2]%orb_false_iff. split; assumption.
Qed.

(** A field line. *)
Lemma digest_field (commit : gmap string (value datetime)) cl line tok key tr :
  String.eqb line delimiter2_line = false ->
  1 <= cl <= 11 ->
  _LOG_INFOS parse_datetime !! Z.to_nat (cl - 1) = Some (tok, key, tr) ->
  digest parse_datetime get_git_renaming commit cl line
  = Ok (<[key := field_value tr line]> commit, cl + 1).
Proof.
  intros Hd Hcl Hinfo. unfold digest. fold delimiter2_line. rewrite Hd.
  change (Z.of_nat (length (_LOG_INFOS parse_datetime))) with 11.
  replace ((1 <=? cl) && (cl <=? 11)) with true
    by (symmetry; apply andb_true_iff; split; apply Z.leb_le; lia).
  rewrite Hinfo. cbn [mbind result_bind].
  replace (0 <=? cl) with true by (symmetry; apply Z.leb_le; lia).
  reflexivity.
Qed.

(** The first line of the message. *)
Lemma digest_message_first (commit : gmap string (value datetime)) line :
  String.eqb line delimiter2_line = false ->
  digest parse_datetime get_git_renaming commit 12 line
  = Ok (<["message" := VStr (rstrip line)]> commit, 13).
Proof.
  intros Hd. unfold digest. fold delimiter2_line. rewrite Hd. reflexivity.
Qed.

(** A later line of the message. *)
Lemma digest_message_next (commit : gmap string (value datetime)) cl line m :
  String.eqb line delimiter2_line = false ->
  13 <= cl ->
  commit !! "message" = Some (VStr m) ->
  digest parse_datetime get_git_renaming commit cl line
  = Ok (<["message" := VStr (String.append m (String newline (rstrip line)))]>
          commit, cl + 1).
Proof.
  intros Hd Hcl Hm. unfold digest. fold delimiter2_line. rewrite Hd.
  change (Z.of_nat (length (_LOG_INFOS parse_datetime))) with 11.
  replace ((1 <=? cl) && (cl <=? 11)) with false
    by (symmetry; apply andb_false_iff; right; apply Z.leb_gt; lia).
  replace (cl =? 11 + 1) with false by (symmetry; apply Z.eqb_neq; lia).
  replace (11 + 1 <? cl) with true by (symmetry; apply Z.ltb_lt; lia).
  unfold get_message. rewrite Hm. cbn [mbind result_bind].
  replace (0 <=? cl) with true by (symmetry; apply Z.leb_le; lia).
  reflexivity.
Qed.

(** The line of the second delimiter. *)
Lemma digest_delimiter2 (commit : gmap string (value datetime)) cl m :
  commit !! "message" = Some (VStr m) ->
  digest parse_datetime get_git_renaming commit cl delimiter2_line
  = Ok (<["message" := VStr (rstrip m)]> commit, -1).
Proof.
  intros Hm. unfold digest. fold delimiter2_line.
  rewrite String.eqb_refl. unfold get_message. rewrite Hm. reflexivity.
Qed.

(** A line of the change section. *)
Lemma digest_change_line (commit : gmap string (value datetime)) line :
  String.eqb line delimiter2_line = false ->
  digest parse_datetime get_git_renaming commit (-1) line
  = '(commit1, r) ← _parse_changes get_git_renaming commit (strip line);
    if negb (truthy r) then
      '(commit2, _) ← _parse_summary commit1 (strip line);
      Ok (commit2, -1)
    else Ok (commit1, -1).
Proof.
  intros Hd. unfold digest. fold delimiter2_line. rewrite Hd.
  change (Z.of_nat (length (_LOG_INFOS parse_datetime))) with 11.
  cbn [Z.leb Z.eqb Z.ltb Z.compare andb Z.add Pos.compare Pos.compare_cont].
  destruct (_parse_changes get_git_renaming commit (strip line))
    as [[commit1 r]|e]; [|reflexivity].
  cbn [mbind result_bind]. destruct (negb (truthy r)); [|reflexivity].
  destruct (_parse_summary commit1 (strip line)) as [[commit2 b]|e];
    reflexivity.
Qed.

(** *** The change section *)

Lemma enriched_named type mode ch n : named ch n -> named (enriched type mode ch) n.
Proof.
  unfold named, enriched. intros H.
  rewrite lookup_insert_ne by done. by rewrite lookup_insert_ne by done.
Qed.

(** The loop of [_parse_summary] stops at the first change of the name. *)
Lemma enrich_first type mode name before ch after :
  Forall (fun c => exists n, named c n /\ n <> name) before ->
  named ch name ->
  enrich (datetime := datetime) type mode name (before ++ ch :: after)
  = Ok (Some (before ++ enriched type mode ch :: after)).
Proof.
  intros Hb Hch. induction Hb as [|c before (n & Hn & Hne) _ IH].
  - cbn [app enrich]. unfold named in Hch. rewrite Hch, String.eqb_refl.
    reflexivity.
  - cbn [app enrich]. unfold named in Hn. rewrite Hn.
    rewrite string_eqb_false by done. rewrite IH. reflexivity.
Qed.

(** It runs to its end when no change has the name. *)
Lemma enrich_none type mode name chs :
  Forall (fun c => exists n, named c n /\ n <> name) chs ->
  enrich (datetime := datetime) type mode name chs = Ok None.
Proof.
  induction 1 as [|c chs (n & Hn & Hne) _ IH]; [reflexivity|].
  cbn [enrich]. unfold named in Hn. rewrite Hn.
  rewrite string_eqb_false by done. rewrite IH. reflexivity.
Qed.

Lemma named_split chs seen name :
  Forall2 named chs seen -> name ∈ seen ->
  exists before ch after,
    chs = before ++ ch :: after
    /\ Forall (fun c => exists n, named c n /\ n <> name) before
    /\ named ch name.
Proof.
  induction 1 as [|c n chs seen Hc _ IH]; intros Hin.
  - by apply elem_of_nil in Hin.
  - destruct (decide (n = name)) as [->|Hne].
    + exists [], c, chs. by repeat split.
    + apply elem_of_cons in Hin as [?|Hin]; [congruence|].
      destruct (IH Hin) as (before & ch & after & -> & Hb & Hch).
      exists (c :: before), ch, after. repeat split; [|done].
      constructor; [eauto | done].
Qed.

Lemma named_enriched_at type mode before ch after seen :
  Forall2 named (before ++ ch :: after) seen ->
  Forall2 named (before ++ enriched type mode ch :: after) seen.
Proof.
  intros H. apply Forall2_app_inv_l in H as (s1 & s2 & H1 & H2 & ->).
  inversion H2 as [|? n ? s3 Hch Hafter]; subst.
  apply Forall2_app; [done|]. constructor; [|done].
  by apply enriched_named.
Qed.

(** A numeric-stat line records a change and leaves the rest of the commit
    as it is. *)
Lemma parse_changes_match (commit : gmap string (value datetime)) line
    additions deletions name seen :
  recorded commit seen ->
  Re._RE_CHANGE_NUMSTATS line = Some (additions, deletions, name) ->
  exists commit',
    _parse_changes get_git_renaming commit line = Ok (commit', None)
    /\ recorded commit' (seen ++ [change_name get_git_renaming name])
    /\ (forall k, k <> "changes" -> commit' !! k = commit !! k).
Proof.
  intros Hrec Hre. unfold _parse_changes. rewrite Hre.
  set (ch := <["deletions" := deletions]> _).
  set (ch' := match get_git_renaming name with Some _ => _ | None => _ end).
  assert (Hch' : named ch' (change_name get_git_renaming name)).
  { unfold named, ch', change_name.
    destruct (get_git_renaming name) as [[old_name new_name]|].
    - rewrite lookup_insert_ne by done. rewrite lookup_insert_ne by done.
      by rewrite lookup_insert_eq.
    - unfold ch. rewrite !lookup_insert_ne by done. by rewrite lookup_insert_eq. }
  unfold recorded in Hrec.
  destruct (commit !! "changes") as [[| | |chs]|] eqn:Hc; try done.
  - unfold get_changes. rewrite Hc. cbn [mbind result_bind].
    eexists. split; [reflexivity|]. split.
    + unfold recorded. rewrite lookup_insert_eq.
      apply Forall2_app; [done|]. by constructor.
    + intros k Hk. by rewrite lookup_insert_ne.
  - subst seen. unfold get_changes. rewrite lookup_insert_eq.
    cbn [mbind result_bind].
    eexists. split; [reflexivity|]. split.
    + unfold recorded. rewrite lookup_insert_eq. cbn [app].
      by repeat constructor.
    + intros k Hk. rewrite lookup_insert_ne by done. by rewrite lookup_insert_ne.
Qed.

(** A line of a consistent change section is digested without an
    exception. *)
Lemma digest_change_ok (commit : gmap string (value datetime)) raw seen rest :
  recorded commit seen ->
  is_delimiter raw = false ->
  changes_ok get_git_renaming seen (raw :: rest) = true ->
  exists commit' seen',
    digest parse_datetime get_git_renaming commit (-1) (rstrip raw)
    = Ok (commit', -1)
    /\ recorded commit' seen'
    /\ changes_ok get_git_renaming seen' rest = true
    /\ (forall k, k <> "changes" -> commit' !! k = commit !! k).
Proof.
  intros Hrec Hnd Hok. apply is_delimiter_false in Hnd as [_ Hnd].
  rewrite digest_change_line by done. cbn [changes_ok] in Hok.
  set (line := strip (rstrip raw)) in *.
  destruct (Re._RE_CHANGE_NUMSTATS line) as [[[additions deletions] name]|]
    eqn:Hre.
  - destruct (parse_changes_match commit line _ _ _ seen Hrec Hre)
      as (commit' & -> & Hrec' & Hframe).
    destruct (numstats_not_summary line _ Hre) as [Hrename Hsum].
    cbn [mbind result_bind truthy negb]. unfold _parse_summary.
    rewrite Hrename, Hsum. cbn [mbind result_bind].
    exists commit', (seen ++ [change_name get_git_renaming name]). auto.
  - unfold _parse_changes. rewrite Hre.
    cbn [mbind result_bind truthy negb]. unfold _parse_summary.
    destruct (startswith "rename " line).
    { exists commit, seen. auto. }
    destruct (Re._RE_CHANGE_SUMMARY (strip line)) as [[[type mode] name]|].
    2:{ exists commit, seen. auto. }
    apply andb_true_iff in Hok as [Hin Hok]. apply bool_decide_eq_true in Hin.
    unfold recorded in Hrec. unfold get_changes.
    destruct (commit !! "changes") as [[| | |chs]|] eqn:Hc; try done.
    2:{ subst seen. by apply elem_of_nil in Hin. }
    destruct (named_split chs seen name Hrec Hin)
      as (before & ch & after & -> & Hb & Hch).
    cbn [mbind result_bind]. rewrite (enrich_first _ _ _ _ _ _ Hb Hch).
    cbn [mbind result_bind].
    eexists _, seen. split; [reflexivity|]. split; [|split; [done|]].
    + unfold recorded. rewrite lookup_insert_eq.
      by apply named_enriched_at.
    + intros k Hk. by rewrite lookup_insert_ne.
Qed.

Lemma change_section_ok lines : forall (commit : gmap string (value datetime)) seen,
  recorded commit seen ->
  forallb (fun raw => negb (is_delimiter raw)) lines = true ->
  changes_ok get_git_renaming seen lines = true ->
  exists commit',
    digest_lines parse_datetime get_git_renaming commit (-1) lines
    = Ok (commit', -1)
    /\ (forall k, k <> "changes" -> commit' !! k = commit !! k).
Proof.
  induction lines as [|raw rest IH]; intros commit seen Hrec Hnd Hok.
  - exists commit. by split.
  - cbn [forallb] in Hnd. apply andb_true_iff in Hnd as [Hraw Hnd].
    apply negb_true_iff in Hraw.
    destruct (digest_change_ok commit raw seen rest Hrec Hraw Hok)
      as (commit1 & seen1 & Hd & Hrec1 & Hok1 & Hframe1).
    destruct (IH commit1 seen1 Hrec1 Hnd Hok1) as (commit' & Hd' & Hframe').
    exists commit'. split.
    + cbn [digest_lines]. rewrite Hd. exact Hd'.
    + intros k Hk. rewrite Hframe' by done. by apply Hframe1.
Qed.

(** *** A whole frame *)

Lemma digest_lines_app lines1 : forall lines2 (commit : gmap string (value datetime)) cl,
  digest_lines parse_datetime get_git_renaming commit cl (lines1 ++ lines2)
  = '(commit', cl') ← digest_lines parse_datetime get_git_renaming commit cl lines1;
    digest_lines parse_datetime get_git_renaming commit' cl' lines2.
Proof.
  induction lines1 as [|raw rest IH]; intros lines2 commit cl; [reflexivity|].
  cbn [app digest_lines].
  destruct (digest parse_datetime get_git_renaming commit cl (rstrip raw))
    as [[commit1 cl1]|e]; [|reflexivity].
  cbn [mbind result_bind]. apply IH.
Qed.

Lemma digest_lines_fields lines : forall (commit : gmap string (value datetime)) cl,
  1 <= cl ->
  cl + Z.of_nat (length lines) <= 12 ->
  forallb (fun raw => negb (is_delimiter raw)) lines = true ->
  digest_lines parse_datetime get_git_renaming commit cl lines
  = Ok (store_fields (drop (Z.to_nat (cl - 1)) (_LOG_INFOS parse_datetime))
          lines commit,
        cl + Z.of_nat (length lines)).
Proof.
  induction lines as [|raw rest IH]; intros commit cl Hcl Hlen Hnd.
  - cbn [digest_lines length]. rewrite Z.add_0_r.
    by destruct (drop _ _) as [|[[? ?] ?] ?].
  - cbn [forallb] in Hnd. apply andb_true_iff in Hnd as [Hraw Hnd].
    apply negb_true_iff, is_delimiter_false in Hraw as [_ Hraw].
    cbn [length] in Hlen.
    assert (Hlt : (Z.to_nat (cl - 1) < length (_LOG_INFOS parse_datetime))%nat).
    { change (length (_LOG_INFOS parse_datetime)) with 11%nat. lia. }
    apply lookup_lt_is_Some_2 in Hlt as [[[tok key] tr] Hinfo].
    cbn [digest_lines].
    rewrite (digest_field commit cl (rstrip raw) tok key tr) by (done || lia).
    cbn [mbind result_bind]. rewrite IH by (done || lia).
    rewrite (drop_S _ _ _ Hinfo). cbn [store_fields].
    replace (Z.to_nat (cl + 1 - 1)) with (S (Z.to_nat (cl - 1))) by lia.
    f_equal. f_equal. cbn [length]. lia.
Qed.

Lemma append_assoc (a b c : string) :
  String.append (String.append a b) c = String.append a (String.append b c).
Proof.
  induction a as [|x a IH]; [reflexivity|].
  change (String x ((a +:+ b) +:+ c) = String x (a +:+ (b +:+ c))).
  by rewrite IH.
Qed.

Lemma extend_join_from lines : forall m l,
  extend (String.append m (rstrip l)) lines
  = String.append m (join_lines (map rstrip (l :: lines))).
Proof.
  induction lines as [|l' rest IH]; intros m l; [reflexivity|].
  cbn [extend fold_left].
  change (fold_left _ rest ?x) with (extend x rest).
  replace (String.append (String.append m (rstrip l)) (String newline (rstrip l')))
    with (String.append
            (String.append (String.append m (rstrip l))
               (String newline EmptyString)) (rstrip l'))
    by (rewrite (append_assoc (String.append m (rstrip l))); reflexivity).
  rewrite IH. rewrite (append_assoc (String.append m (rstrip l))).
  rewrite append_assoc. reflexivity.
Qed.

Lemma extend_join lines l :
  extend (rstrip l) lines = join_lines (map rstrip (l :: lines)).
Proof. apply (extend_join_from lines EmptyString l). Qed.

Lemma digest_lines_message lines : forall (commit : gmap string (value datetime)) cl m,
  13 <= cl ->
  commit !! "message" = Some (VStr m) ->
  forallb (fun raw => negb (is_delimiter raw)) lines = true ->
  digest_lines parse_datetime get_git_renaming commit cl lines
  = Ok (<["message" := VStr (extend m lines)]> commit,
        cl + Z.of_nat (length lines)).
Proof.
  induction lines as [|raw rest IH]; intros commit cl m Hcl Hm Hnd.
  - cbn [digest_lines extend fold_left length].
    rewrite insert_id by done. by rewrite Z.add_0_r.
  - cbn [forallb] in Hnd. apply andb_true_iff in Hnd as [Hraw Hnd].
    apply negb_true_iff, is_delimiter_false in Hraw as [_ Hraw].
    cbn [digest_lines].
    rewrite (digest_message_next commit cl (rstrip raw) m) by done.
    cbn [mbind result_bind].
    rewrite (IH _ (cl + 1) (String.append m (String newline (rstrip (rstrip raw)))))
      by (done || lia || apply lookup_insert_eq).
    rewrite insert_insert_eq, rstrip_idempotent.
    f_equal. f_equal. cbn [length]. lia.
Qed.

Lemma store_fields_other infos : forall lines (commit : gmap string (value datetime)) k,
  k ∉ map (fun info => info.1.2) infos ->
  store_fields infos lines commit !! k = commit !! k.
Proof.
  induction infos as [|[[tok key] tr] infos IH]; intros lines commit k Hk.
  - by destruct lines.
  - destruct lines as [|raw lines]; [reflexivity|]. cbn [store_fields].
    cbn [map fst snd] in Hk. apply not_elem_of_cons in Hk as [Hne Hk].
    rewrite IH by done. by rewrite lookup_insert_ne.
Qed.

Lemma log_infos_no_key k :
  k = "changes" \/ k = "message" ->
  k ∉ map (fun info => info.1.2) (_LOG_INFOS parse_datetime).
Proof.
  intros Hk Hin. cbn [map _LOG_INFOS fst snd] in Hin.
  repeat (apply elem_of_cons in Hin as [Hin|Hin];
          [destruct Hk as [-> | ->]; discriminate|]).
  by apply elem_of_nil in Hin.
Qed.

Lemma well_formed_parts f :
  well_formed parse_datetime get_git_renaming f = true ->
  rstrip (start_line f) = _DELIMITER1
  /\ length (field_lines f) = 11%nat
  /\ message_lines f <> []
  /\ rstrip (end_line f) = delimiter2_line
  /\ forallb (fun raw => negb (is_delimiter raw)) (field_lines f) = true
  /\ forallb (fun raw => negb (is_delimiter raw)) (message_lines f) = true
  /\ forallb (fun raw => negb (is_delimiter raw)) (change_lines f) = true
  /\ changes_ok get_git_renaming [] (change_lines f) = true.
Proof.
  unfold well_formed.
  intros [[[[[H1 H2]%andb_true_iff H3]%andb_true_iff H4]%andb_true_iff
            H5]%andb_true_iff H6]%andb_true_iff.
  rewrite !forallb_app in H5.
  apply andb_true_iff in H5 as [H5 [H5' H5'']%andb_true_iff].
  apply String.eqb_eq in H1, H4. apply Nat.eqb_eq in H2.
  apply negb_true_iff, bool_decide_eq_false in H3.
  repeat split; assumption.
Qed.

(** The lines of a well-formed frame are digested, from an empty
    dictionary, without an exception, and give the fields and the message
    of the frame; only the changes come on top. *)
Lemma frame_digest f :
  well_formed parse_datetime get_git_renaming f = true ->
  exists commit,
    digest_lines parse_datetime get_git_renaming ∅ 1 (frame_body f)
    = Ok (commit, -1)
    /\ (forall k, k <> "changes" -> commit !! k = frame_head parse_datetime f !! k).
Proof.
  intros Hwf.
  destruct (well_formed_parts f Hwf)
    as (_ & Hlen & Hmsg & Hend & Hnf & Hnm & Hnc & Hch).
  unfold frame_body. rewrite digest_lines_app.
  rewrite digest_lines_fields by (done || lia). rewrite Hlen.
  cbn [mbind result_bind]. change (1 + Z.of_nat 11) with 12.
  change (drop (Z.to_nat (1 - 1)) (_LOG_INFOS parse_datetime))
    with (_LOG_INFOS parse_datetime).
  set (c0 := store_fields _ _ _).
  destruct (message_lines f) as [|m1 ms] eqn:Hms; [done|].
  cbn [forallb] in Hnm. apply andb_true_iff in Hnm as [Hm1 Hnm].
  apply negb_true_iff, is_delimiter_false in Hm1 as [_ Hm1].
  cbn [app digest_lines]. rewrite digest_message_first by done.
  cbn [mbind result_bind]. rewrite rstrip_idempotent.
  rewrite digest_lines_app.
  rewrite (digest_lines_message ms _ 13 (rstrip m1))
    by (done || lia || apply lookup_insert_eq).
  cbn [mbind result_bind digest_lines]. rewrite insert_insert_eq, Hend.
  rewrite (digest_delimiter2 _ _ (extend (rstrip m1) ms))
    by apply lookup_insert_eq.
  cbn [mbind result_bind]. rewrite insert_insert_eq, extend_join.
  assert (Hhead : <["message" := VStr (rstrip (join_lines (map rstrip (m1 :: ms))))]> c0
                  = frame_head parse_datetime f).
  { unfold frame_head, frame_message. by rewrite Hms. }
  rewrite Hhead.
  apply (change_section_ok (change_lines f) (frame_head parse_datetime f) []); [|done|done].
  unfold recorded, frame_head. rewrite lookup_insert_ne by done.
  rewrite store_fields_other by (apply log_infos_no_key; by left).
  by rewrite lookup_empty.
Qed.

(** *** The loop over a stream of frames *)

Lemma loop_stops offset count (commit : gmap string (value datetime)) cl cc stdout :
  within offset count cc = false ->
  iter_commits_loop parse_datetime get_git_renaming offset count commit cl cc stdout
  = ([], Return).
Proof.
  intros Hw.
  assert (Hf : flush_pending offset count commit cc = []).
  { unfold flush_pending. rewrite Hw, andb_false_r. reflexivity. }
  destruct stdout; cbn [iter_commits_loop]; rewrite Hw, Hf; reflexivity.
Qed.

Lemma loop_digest_lines offset count cc rest lines :
  forall (commit : gmap string (value datetime)) cl commit' cl',
  within offset count cc = true ->
  Forall (fun raw => String.eqb (rstrip raw) _DELIMITER1 = false) lines ->
  digest_lines parse_datetime get_git_renaming commit cl lines
  = Ok (commit', cl') ->
  iter_commits_loop parse_datetime get_git_renaming offset count commit cl cc
    (lines ++ rest)
  = iter_commits_loop parse_datetime get_git_renaming offset count commit' cl'
      cc rest.
Proof.
  induction lines as [|raw lines IH]; intros commit cl commit' cl' Hw Hnd Hd.
  - cbn [digest_lines] in Hd. by injection Hd as -> ->.
  - inversion Hnd as [|? ? Hraw Hnd']; subst.
    cbn [digest_lines] in Hd.
    destruct (digest parse_datetime get_git_renaming commit cl (rstrip raw))
      as [[commit1 cl1]|e] eqn:Hdig; [|discriminate].
    cbn [mbind result_bind] in Hd.
    cbn [app iter_commits_loop]. rewrite Hw, Hraw, Hdig.
    by apply IH.
Qed.

Lemma select_beyond {A} offset count (l : list A) : forall cc,
  within offset count cc = false ->
  select offset count cc l = [].
Proof.
  induction l as [|x l IH]; intros cc Hw; [reflexivity|].
  cbn [select]. rewrite Hw, andb_false_r. cbn [app]. apply IH.
  unfold within in *. apply orb_false_iff in Hw as [H1 H2].
  rewrite H1. cbn [orb]. apply Z.ltb_ge in H2. apply Z.ltb_ge. lia.
Qed.

Lemma select_from {A} offset count (l : list A) : forall cc,
  offset <= cc ->
  select offset count cc l
  = if 0 <? count then take (Z.to_nat (count - (cc - offset))) l else l.
Proof.
  induction l as [|x l IH]; intros cc Hcc.
  - cbn [select]. destruct (0 <? count); [by rewrite take_nil | done].
  - cbn [select]. rewrite IH by lia.
    replace (offset <=? cc) with true by (symmetry; apply Z.leb_le; lia).
    unfold within. cbn [andb].
    destruct (Z.ltb_spec 0 count) as [Hpos|Hneg].
    + replace (count <=? 0) with false by (symmetry; apply Z.leb_gt; lia).
      cbn [orb]. destruct (Z.ltb_spec (cc - offset) count) as [Hin|Hout].
      * replace (Z.to_nat (count - (cc - offset)))
          with (S (Z.to_nat (count - (cc + 1 - offset)))) by lia.
        reflexivity.
      * replace (Z.to_nat (count - (cc - offset))) with 0%nat by lia.
        replace (Z.to_nat (count - (cc + 1 - offset))) with 0%nat by lia.
        by rewrite !take_0.
    + replace (count <=? 0) with true by (symmetry; apply Z.leb_le; lia).
      reflexivity.
Qed.

Lemma select_window {A} offset count (l : list A) : forall cc,
  0 <= cc <= offset ->
  select offset count cc l = window (offset - cc) count l.
Proof.
  induction l as [|x l IH]; intros cc Hcc.
  - unfold window. cbn [select].
    destruct (0 <? count); by rewrite ?drop_nil, ?take_nil.
  - destruct (Z.eq_dec cc offset) as [->|Hne].
    + rewrite select_from by lia. unfold window.
      replace (offset - offset) with 0 by lia.
      replace (count - 0) with count by lia. reflexivity.
    + cbn [select].
      replace (offset <=? cc) with false by (symmetry; apply Z.leb_gt; lia).
      cbn [andb app]. rewrite IH by lia. unfold window.
      replace (Z.to_nat (offset - cc))
        with (S (Z.to_nat (offset - (cc + 1)))) by lia.
      reflexivity.
Qed.

Lemma window_length {A} k m (l : list A) :
  0 <= k ->
  Z.of_nat (length (window k m l))
  = if 0 <? m then Z.max 0 (Z.min m (Z.of_nat (length l) - k))
    else Z.max 0 (Z.of_nat (length l) - k).
Proof.
  intros Hk. unfold window. destruct (Z.ltb_spec 0 m).
  - rewrite length_take, length_drop. lia.
  - rewrite length_drop. lia.
Qed.

Lemma store_fields_lookup infos :
  NoDup (map (fun info => info.1.2) infos) ->
  forall lines (commit : gmap string (value datetime)) i tok key tr raw,
  infos !! i = Some (tok, key, tr) ->
  lines !! i = Some raw ->
  store_fields infos lines commit !! key = Some (field_value tr (rstrip raw)).
Proof.
  induction infos as [|[[tok0 key0] tr0] infos IH];
    intros Hnd lines commit i tok key tr raw Hi Hl; [done|].
  cbn [map fst snd] in Hnd. apply NoDup_cons in Hnd as [Hfresh Hnd].
  destruct lines as [|raw0 lines]; [done|]. cbn [store_fields].
  destruct i as [|i].
  - injection Hi as -> -> ->. injection Hl as ->.
    rewrite store_fields_other by done. apply lookup_insert_eq.
  - by apply (IH Hnd lines _ i tok).
Qed.

Lemma log_infos_keys_distinct :
  NoDup (map (fun info => info.1.2) (_LOG_INFOS parse_datetime)).
Proof.
  cbn [map _LOG_INFOS fst snd].
  repeat (apply NoDup_cons; split;
          [intros Hin;
           repeat (apply elem_of_cons in Hin as [Hin|Hin]; [discriminate|]);
           by apply elem_of_nil in Hin|]).
  apply NoDup_nil_2.
Qed.

(** A field of the dictionary of a frame. *)
Lemma frame_head_field f i tok key tr raw :
  _LOG_INFOS parse_datetime !! i = Some (tok, key, tr) ->
  field_lines f !! i = Some raw ->
  frame_head parse_datetime f !! key = Some (field_value tr (rstrip raw)).
Proof.
  intros Hi Hl. unfold frame_head.
  assert (Hkey : key <> "message").
  { intros ->. apply (log_infos_no_key "message"); [by right|].
    apply list_elem_of_In, (in_map (fun info => info.1.2) _ (tok, "message", tr)).
    apply list_elem_of_In. by eapply list_elem_of_lookup_2. }
  rewrite lookup_insert_ne by done.
  by apply (store_fields_lookup _ log_infos_keys_distinct _ _ i tok).
Qed.

Lemma frame_commit_digest f :
  well_formed parse_datetime get_git_renaming f = true ->
  digest_lines parse_datetime get_git_renaming ∅ 1 (frame_body f)
  = Ok (frame_commit parse_datetime get_git_renaming f, -1)
  /\ (forall k, k <> "changes" ->
        frame_commit parse_datetime get_git_renaming f !! k = frame_head parse_datetime f !! k).
Proof.
  intros Hwf. destruct (frame_digest f Hwf) as (commit & Hd & Hk).
  unfold frame_commit. rewrite Hd. by split.
Qed.

Lemma frame_commit_nonempty f :
  well_formed parse_datetime get_git_renaming f = true ->
  nonempty (frame_commit parse_datetime get_git_renaming f) = true.
Proof.
  intros Hwf. destruct (frame_commit_digest f Hwf) as [_ Hk].
  destruct (well_formed_parts f Hwf) as (_ & Hlen & _).
  destruct (field_lines f) as [|raw0 rest] eqn:Hf; [discriminate|].
  unfold nonempty. apply negb_true_iff, bool_decide_eq_false. intros Hempty.
  specialize (Hk "hash" ltac:(done)).
  rewrite (frame_head_field f 0 "%H" "hash" None raw0) in Hk
    by (done || by rewrite Hf).
  by rewrite Hempty, lookup_empty in Hk.
Qed.

Lemma no_delimiter1 lines :
  forallb (fun raw => negb (is_delimiter raw)) lines = true ->
  Forall (fun raw => String.eqb (rstrip raw) _DELIMITER1 = false) lines.
Proof.
  induction lines as [|raw lines IH]; [constructor|].
  cbn [forallb]. intros [Hraw Hrest]%andb_true_iff.
  apply negb_true_iff, is_delimiter_false in Hraw as [Hraw _].
  constructor; auto.
Qed.

Lemma frame_body_no_delimiter1 f :
  well_formed parse_datetime get_git_renaming f = true ->
  Forall (fun raw => String.eqb (rstrip raw) _DELIMITER1 = false) (frame_body f).
Proof.
  intros Hwf.
  destruct (well_formed_parts f Hwf) as (_ & _ & _ & Hend & Hnf & Hnm & Hnc & _).
  unfold frame_body. apply Forall_app. split; [by apply no_delimiter1|].
  apply Forall_app. split; [by apply no_delimiter1|].
  constructor; [by rewrite Hend | by apply no_delimiter1].
Qed.

(** The loop, with a commit in flight, over the frames still to come. *)
Lemma loop_frames offset count frames :
  forall (pending : gmap string (value datetime)) cl cc,
  forallb (well_formed parse_datetime get_git_renaming) frames = true ->
  nonempty pending = true ->
  iter_commits_loop parse_datetime get_git_renaming offset count pending cl cc
    (stream_of frames)
  = (select offset count cc
       (pending :: map (frame_commit parse_datetime get_git_renaming) frames),
     Return).
Proof.
  induction frames as [|f frames IH]; intros pending cl cc Hwf Hne.
  - cbn [stream_of map concat select iter_commits_loop].
    unfold flush_pending. rewrite Hne. cbn [andb]. rewrite app_nil_r.
    destruct (within offset count cc); [reflexivity|].
    by rewrite andb_false_r.
  - cbn [forallb] in Hwf. apply andb_true_iff in Hwf as [Hf Hwf].
    destruct (within offset count cc) eqn:Hw.
    2:{ rewrite loop_stops by done. by rewrite select_beyond. }
    destruct (well_formed_parts f Hf) as (Hstart & _).
    change (stream_of (f :: frames))
      with (start_line f :: (frame_body f ++ stream_of frames)).
    cbn [iter_commits_loop]. rewrite Hw, Hstart, String.eqb_refl, Hne.
    cbn [map].
    change (select offset count cc (pending :: ?l))
      with ((if (offset <=? cc) && within offset count cc
             then [pending] else []) ++ select offset count (cc + 1) l).
    rewrite Hw, andb_true_r. unfold yield_then.
    destruct (within offset count (cc + 1)) eqn:Hw1.
    + destruct (frame_commit_digest f Hf) as [Hd _].
      rewrite (loop_digest_lines _ _ _ _ _ _ _ _ _ Hw1
                 (frame_body_no_delimiter1 f Hf) Hd).
      rewrite IH by (done || by apply frame_commit_nonempty).
      reflexivity.
    + rewrite loop_stops by done. cbn [fst snd].
      rewrite (select_beyond _ _ _ _ Hw1). reflexivity.
Qed.

(** What [iter_commits] yields over a stream of well-formed frames. *)
Lemma iter_commits_select offset count frames :
  0 <= offset ->
  forallb (well_formed parse_datetime get_git_renaming) frames = true ->
  iter_commits parse_datetime get_git_renaming offset count (stream_of frames)
  = (select offset count 0
       (map (frame_commit parse_datetime get_git_renaming) frames), Return).
Proof.
  intros Hoff Hwf. unfold iter_commits. destruct frames as [|f frames].
  - cbn. unfold flush_pending, nonempty. rewrite bool_decide_eq_true_2 by done.
    cbn [negb andb]. by destruct (within offset count 0).
  - cbn [forallb] in Hwf. apply andb_true_iff in Hwf as [Hf Hwf].
    assert (Hw : within offset count 0 = true).
    { unfold within. apply orb_true_iff.
      destruct (Z.leb_spec count 0); [by left | right]. apply Z.ltb_lt. lia. }
    destruct (well_formed_parts f Hf) as (Hstart & _).
    change (stream_of (f :: frames))
      with (start_line f :: (frame_body f ++ stream_of frames)).
    cbn [iter_commits_loop]. rewrite Hw, Hstart, String.eqb_refl.
    unfold nonempty at 1. rewrite bool_decide_eq_true_2 by done. cbn [negb].
    destruct (frame_commit_digest f Hf) as [Hd _].
    rewrite (loop_digest_lines _ _ _ _ _ _ _ _ _ Hw
               (frame_body_no_delimiter1 f Hf) Hd).
    rewrite loop_frames by (done || by apply frame_commit_nonempty).
    reflexivity.
Qed.

(** *** A summary line *)

(** What the loop body does with a line of the change section that only the
    summary pattern matches and that is no rename notice. *)
Lemma digest_summary_line (commit : gmap string (value datetime)) line
    type mode name :
  String.eqb line delimiter2_line = false ->
  Re._RE_CHANGE_NUMSTATS (strip line) = None ->
  startswith "rename " (strip line) = false ->
  Re._RE_CHANGE_SUMMARY (strip (strip line)) = Some (type, mode, name) ->
  digest parse_datetime get_git_renaming commit (-1) line
  = changes ← get_changes commit;
    r ← enrich type mode name changes;
    match r with
    | Some changes' => Ok (<["changes" := VChanges changes']> commit, -1)
    | None => Err (AssertionError name (strip line) commit)
    end.
Proof.
  intros Hd Hnum Hren Hsum. rewrite digest_change_line by done.
  unfold _parse_changes. rewrite Hnum.
  cbn [mbind result_bind truthy negb]. unfold _parse_summary.
  rewrite Hren, Hsum.
  destruct (get_changes commit) as [changes|e]; [|reflexivity].
  cbn [mbind result_bind].
  destruct (enrich type mode name changes) as [[changes'|]|e]; reflexivity.
Qed.

(** A summary line whose path no recorded change has, in a commit that
    holds a list of changes, raises the [AssertionError] that carries the
    path, the line and the commit. *)
Lemma summary_without_change_raises (commit : gmap string (value datetime))
    line type mode name changes :
  String.eqb line delimiter2_line = false ->
  Re._RE_CHANGE_NUMSTATS (strip line) = None ->
  startswith "rename " (strip line) = false ->
  Re._RE_CHANGE_SUMMARY (strip (strip line)) = Some (type, mode, name) ->
  commit !! "changes" = Some (VChanges changes) ->
  Forall (fun c => exists n, named c n /\ n <> name) changes ->
  digest parse_datetime get_git_renaming commit (-1) line
  = Err (AssertionError name (strip line) commit).
Proof.
  intros Hd Hnum Hren Hsum Hc Hnone.
  rewrite (digest_summary_line commit line type mode name) by done.
  unfold get_changes. rewrite Hc. cbn [mbind result_bind].
  by rewrite enrich_none.
Qed.

Lemma named_count_none name changes :
  Forall (fun c => exists n, named c n /\ n <> name) changes ->
  named_count name changes = 0%nat.
Proof.
  unfold named_count. induction 1 as [|c chs (n & Hn & Hne) _ IH]; [done|].
  rewrite filter_cons, decide_False; [exact IH|].
  unfold named in Hn. rewrite Hn. congruence.
Qed.

(** C7. In a commit whose changes hold exactly one change named ["a.txt"],
    the summary line ["create mode 100644 a.txt"] (as git writes it, after a
    space) sets the type of that change to ["create"] and its mode to
    ["100644"]: every other key of that change, every other change and every
    other key of the commit are as before, and one change named ["a.txt"]
    remains. *)
Theorem summary_enriches_matching_change
    (commit : gmap string (value datetime))
    (before after : list (gmap string string)) (ch : gmap string string) :
  commit !! "changes" = Some (VChanges (before ++ ch :: after)) ->
  named ch "a.txt" ->
  Forall (fun c => exists n, named c n /\ n <> "a.txt") before ->
  Forall (fun c => exists n, named c n /\ n <> "a.txt") after ->
  let ch' := enriched "create" "100644" ch in
  digest parse_datetime get_git_renaming commit (-1) " create mode 100644 a.txt"
  = Ok (<["changes" := VChanges (before ++ ch' :: after)]> commit, -1)
  /\ ch' !! "name" = Some "a.txt"
  /\ ch' !! "type" = Some "create"
  /\ ch' !! "mode" = Some "100644"
  /\ (forall k, k <> "type" -> k <> "mode" -> ch' !! k = ch !! k)
  /\ named_count "a.txt" (before ++ ch' :: after) = 1%nat.
Proof.
  intros Hc Hch Hb Ha ch'.
  split; [|split; [|split; [|split; [|split]]]].
  - rewrite (digest_summary_line commit _ "create" "100644" "a.txt")
      by reflexivity.
    unfold get_changes. rewrite Hc. cbn [mbind result_bind].
    by rewrite (enrich_first _ _ _ _ _ _ Hb Hch).
  - by apply enriched_named.
  - unfold ch', enriched. rewrite lookup_insert_ne by done.
    apply lookup_insert_eq.
  - apply lookup_insert_eq.
  - intros k Hk1 Hk2. unfold ch', enriched.
    rewrite lookup_insert_ne by done. by rewrite lookup_insert_ne.
  - unfold named_count. rewrite filter_app, filter_cons, length_app.
    rewrite decide_True by (by apply enriched_named). cbn [length].
    fold (named_count "a.txt" before). fold (named_count "a.txt" after).
    by rewrite !named_count_none.
Qed.

(** *** The claims about whole streams *)

(** Over well-formed frames, [iter_commits] returns after yielding a
    window of the commits of the frames. *)
Lemma iter_commits_over_frames (frames : list frame) (offset count : Z) :
  forallb (well_formed parse_datetime get_git_renaming) frames = true ->
  0 <= offset ->
  iter_commits parse_datetime get_git_renaming offset count (stream_of frames)
  = (window offset count
       (map (frame_commit parse_datetime get_git_renaming) frames), Return).
Proof.
  intros Hwf Hoff. rewrite iter_commits_select by done.
  rewrite select_window by lia. by replace (offset - 0) with offset by lia.
Qed.

(** C1, as amended. Over the lines of [N] well-formed frames and for an
    offset [k >= 0], [iter_commits(offset=k, count=m)] returns after
    yielding the slice [[k : k + m]] of what the unrestricted iteration
    yields when [m > 0], and the slice [[k :]] when [m <= 0], in the same
    order, the commit in flight at the end of the stream included:
    [max(0, min(m, N - k))] commits when [m > 0] and [max(0, N - k)] when
    [m <= 0]. *)
Theorem iter_commits_yields_window (frames : list frame) (offset count : Z) :
  forallb (well_formed parse_datetime get_git_renaming) frames = true ->
  0 <= offset ->
  let all := map (frame_commit parse_datetime get_git_renaming) frames in
  let yielded :=
    (iter_commits parse_datetime get_git_renaming offset count
       (stream_of frames)).1 in
  iter_commits parse_datetime get_git_renaming 0 0 (stream_of frames)
  = (all, Return)
  /\ iter_commits parse_datetime get_git_renaming offset count (stream_of frames)
     = (window offset count all, Return)
  /\ Z.of_nat (length yielded)
     = if 0 <? count
       then Z.max 0 (Z.min count (Z.of_nat (length frames) - offset))
       else Z.max 0 (Z.of_nat (length frames) - offset).
Proof.
  intros Hwf Hoff all yielded.
  assert (Hall : iter_commits parse_datetime get_git_renaming 0 0
                   (stream_of frames) = (all, Return)).
  { by rewrite iter_commits_over_frames by done. }
  assert (Hwin : iter_commits parse_datetime get_git_renaming offset count
                   (stream_of frames) = (window offset count all, Return)).
  { by apply iter_commits_over_frames. }
  split; [exact Hall|]. split; [exact Hwin|].
  unfold yielded. rewrite Hwin. cbn [fst].
  rewrite window_length by done. unfold all. by rewrite length_map.
Qed.

(** C3, as amended. The message of the commit of a well-formed frame is
    built from the message lines each stripped of its trailing whitespace:
    they are joined with newlines, and the whole is stripped of trailing
    whitespace when the second delimiter is read. Newlines between lines
    and whitespace that opens a line are kept; whitespace that ends a line
    is not. *)
Theorem message_joins_right_stripped_lines (f : frame) :
  well_formed parse_datetime get_git_renaming f = true ->
  iter_commits parse_datetime get_git_renaming 0 0 (frame_lines f)
  = ([frame_commit parse_datetime get_git_renaming f], Return)
  /\ frame_commit parse_datetime get_git_renaming f !! "message"
     = Some (VStr (rstrip (join_lines (map rstrip (message_lines f))))).
Proof.
  intros Hwf. split.
  - assert (Hwfs : forallb (well_formed parse_datetime get_git_renaming) [f]
                   = true) by (cbn [forallb]; by rewrite Hwf).
    pose proof (iter_commits_over_frames [f] 0 0 Hwfs ltac:(lia)) as H.
    cbn [stream_of map concat] in H. by rewrite app_nil_r in H.
  - destruct (frame_commit_digest f Hwf) as [_ Hk].
    rewrite Hk by done. unfold frame_head. apply lookup_insert_eq.
Qed.

Lemma lookup_map {A B} (g : A -> B) (l : list A) : forall i x,
  l !! i = Some x -> map g l !! i = Some (g x).
Proof.
  induction l as [|y l IH]; intros [|i] x H; try done.
  - by injection H as ->.
  - by apply IH.
Qed.

Lemma frame_committer_is_author f :
  well_formed parse_datetime get_git_renaming f = true ->
  written_from_tokens parse_datetime f ->
  committer_is_author (frame_commit parse_datetime get_git_renaming f).
Proof.
  intros Hwf [expand Hfields].
  destruct (frame_commit_digest f Hwf) as [_ Hk].
  assert (Hfield : forall i tok key tr,
            _LOG_INFOS parse_datetime !! i = Some (tok, key, tr) ->
            key <> "changes" ->
            frame_commit parse_datetime get_git_renaming f !! key
            = Some (field_value tr (rstrip (expand tok)))).
  { intros i tok key tr Hi Hne. rewrite Hk by done.
    apply (frame_head_field f i tok key tr); [done|].
    rewrite Hfields. by rewrite (lookup_map _ _ _ _ Hi). }
  unfold committer_is_author.
  rewrite (Hfield 3%nat "%an" "author" None) by done.
  rewrite (Hfield 4%nat "%ae" "author_email" None) by done.
  rewrite (Hfield 5%nat "%aI" "author_date"
             (Some (fun s => VDate (parse_datetime s)))) by done.
  rewrite (Hfield 6%nat "%an" "committer" None) by done.
  rewrite (Hfield 7%nat "%ae" "committer_email" None) by done.
  rewrite (Hfield 8%nat "%aI" "committer_date"
             (Some (fun s => VDate (parse_datetime s)))) by done.
  repeat split; eauto.
Qed.

(** C10. Over a stream of well-formed frames whose field lines git wrote
    from the tokens of [_LOG_INFOS], every commit [iter_commits] yields has
    its committer, committer_email and committer_date equal to its author,
    author_email and author_date: the table asks for the tokens [%an],
    [%ae] and [%aI] for both groups. *)
Theorem committer_fields_repeat_author_fields
    (frames : list frame) (offset count : Z) :
  forallb (well_formed parse_datetime get_git_renaming) frames = true ->
  0 <= offset ->
  Forall (written_from_tokens parse_datetime) frames ->
  map (fun info => info.1.1) (take 3 (drop 6 (_LOG_INFOS parse_datetime)))
  = map (fun info => info.1.1) (take 3 (drop 3 (_LOG_INFOS parse_datetime)))
  /\ Forall committer_is_author
       (iter_commits parse_datetime get_git_renaming offset count
          (stream_of frames)).1.
Proof.
  intros Hwf Hoff Hwritten. split; [reflexivity|].
  rewrite (iter_commits_over_frames frames offset count Hwf Hoff).
  cbn [fst].
  assert (Hall : Forall committer_is_author
                   (map (frame_commit parse_datetime get_git_renaming) frames)).
  { induction Hwritten as [|f frames Hf _ IH]; [constructor|].
    cbn [forallb] in Hwf. apply andb_true_iff in Hwf as [Hwf1 Hwf2].
    cbn [map]. constructor; [by apply frame_committer_is_author | by apply IH]. }
  unfold window. destruct (0 <? count).
  - by apply Forall_take, Forall_drop.
  - by apply Forall_drop.
Qed.

End ParserFacts.


(** ** The claims on the samples *)

Example sample_stream_parses :
  map (fun c => c !! "message")
    (iter_commits keep_date no_renaming 0 0 (stream_of [frame1; frame2; frame3])).1
  = [Some (VStr "Message 1"); Some (VStr "Message 2"); Some (VStr "Message 3")].
Proof. vm_compute. reflexivity. Qed.

Example sample_changes :
  map (fun c => c !! "changes")
    (iter_commits keep_date no_renaming 0 0 (frame_lines frame1)).1
  = [Some (VChanges [<["mode" := "100644"]> (change "a.txt" "create" "1" "0");
                     change "b.txt" "change" "2" "1"])].
Proof. vm_compute. reflexivity. Qed.

Lemma iter_commits_yields_window_witness :
  let frames := [frame1; frame2; frame3] in
  let all := map (frame_commit keep_date no_renaming) frames in
  let yielded := (iter_commits keep_date no_renaming 1 1 (stream_of frames)).1 in
  iter_commits keep_date no_renaming 0 0 (stream_of frames) = (all, Return)
  /\ iter_commits keep_date no_renaming 1 1 (stream_of frames)
     = (window 1 1 all, Return)
  /\ Z.of_nat (length yielded)
     = if 0 <? 1
       then Z.max 0 (Z.min 1 (Z.of_nat (length frames) - 1))
       else Z.max 0 (Z.of_nat (length frames) - 1).
Proof.
  apply (iter_commits_yields_window keep_date no_renaming
           [frame1; frame2; frame3] 1 1).
  - vm_compute. reflexivity.
  - lia.
Defined.

(** C1 as stated fails: one well-formed frame, [offset = 2] and
    [count = 0] give no commit, not [N - k = -1] commits. *)
Lemma iter_commits_count_not_N_minus_k :
  forallb (well_formed keep_date no_renaming) [frame1] = true
  /\ 0 <= 2
  /\ iter_commits keep_date no_renaming 2 0 (stream_of [frame1]) = ([], Return)
  /\ Z.of_nat (length (iter_commits keep_date no_renaming 2 0
                         (stream_of [frame1])).1)
     <> Z.of_nat (length [frame1]) - 2.
Proof.
  split; [vm_compute; reflexivity|]. split; [lia|].
  assert (H : iter_commits keep_date no_renaming 2 0 (stream_of [frame1])
              = ([], Return)) by (vm_compute; reflexivity).
  split; [exact H|]. rewrite H. cbn. lia.
Qed.

Lemma message_joins_right_stripped_lines_witness :
  iter_commits keep_date no_renaming 0 0 (frame_lines frame_spaces)
  = ([frame_commit keep_date no_renaming frame_spaces], Return)
  /\ frame_commit keep_date no_renaming frame_spaces !! "message"
     = Some (VStr (rstrip (join_lines (map rstrip (message_lines frame_spaces))))).
Proof.
  apply (message_joins_right_stripped_lines keep_date no_renaming frame_spaces).
  vm_compute. reflexivity.
Defined.

(** C3 as stated fails: the two spaces that end the first line of the
    message are not kept. *)
Lemma interior_trailing_whitespace_not_kept :
  well_formed keep_date no_renaming frame_spaces = true
  /\ message_as_specified (message_lines frame_spaces)
     = String.append "Fix bug  " (String newline "  details")
  /\ map (fun c => c !! "message")
       (iter_commits keep_date no_renaming 0 0 (frame_lines frame_spaces)).1
     = [Some (VStr (String.append "Fix bug" (String newline "  details")))]
  /\ map (fun c => c !! "message")
       (iter_commits keep_date no_renaming 0 0 (frame_lines frame_spaces)).1
     <> [Some (VStr (message_as_specified (message_lines frame_spaces)))].
Proof.
  split; [vm_compute; reflexivity|]. split; [vm_compute; reflexivity|].
  split; [vm_compute; reflexivity|].
  vm_compute. discriminate.
Qed.

Lemma summary_enriches_matching_change_witness :
  let commit := frame_commit keep_date no_renaming frame1_numstat_only in
  let ch := change "a.txt" "change" "1" "0" in
  let other := change "b.txt" "change" "2" "1" in
  let ch' := enriched "create" "100644" ch in
  digest keep_date no_renaming commit (-1) " create mode 100644 a.txt"
  = Ok (<["changes" := VChanges ([] ++ ch' :: [other])]> commit, -1)
  /\ ch' !! "name" = Some "a.txt"
  /\ ch' !! "type" = Some "create"
  /\ ch' !! "mode" = Some "100644"
  /\ (forall k, k <> "type" -> k <> "mode" -> ch' !! k = ch !! k)
  /\ named_count "a.txt" ([] ++ ch' :: [other]) = 1%nat.
Proof.
  apply (summary_enriches_matching_change keep_date no_renaming
           (frame_commit keep_date no_renaming frame1_numstat_only)
           [] [change "b.txt" "change" "2" "1"]
           (change "a.txt" "change" "1" "0")).
  - vm_compute. reflexivity.
  - reflexivity.
  - constructor.
  - constructor; [|constructor]. exists "b.txt". split; [reflexivity | discriminate].
Defined.

Lemma committer_fields_repeat_author_fields_witness :
  map (fun info => info.1.1) (take 3 (drop 6 (_LOG_INFOS keep_date)))
  = map (fun info => info.1.1) (take 3 (drop 3 (_LOG_INFOS keep_date)))
  /\ Forall (committer_is_author (datetime := string))
       (iter_commits keep_date no_renaming 0 2
          (stream_of [frame1; frame2; frame3])).1.
Proof.
  apply (committer_fields_repeat_author_fields keep_date no_renaming
           [frame1; frame2; frame3] 0 2).
  - vm_compute. reflexivity.
  - lia.
  - repeat constructor.
    + exists (expand "h1" ""). reflexivity.
    + exists (expand "h2" "h1"). reflexivity.
    + exists (expand "h3" "h2"). reflexivity.
Defined.

(** C2 at the failing input. A summary line that no numeric-stat line
    precedes in its frame ends the parse with [KeyError('changes')], which
    carries neither the line nor the commit; after a numeric-stat line for
    another path the parse ends with the [AssertionError] that carries the
    path, the line and the commit built so far. *)
Theorem summary_without_numstat_raises_KeyError :
  iter_commits keep_date no_renaming 0 0 (frame_lines frame_summary_only)
  = ([], Raise (KeyError "changes"))
  /\ exists commit,
       iter_commits keep_date no_renaming 0 0 (frame_lines frame_summary_unmatched)
       = ([], Raise (AssertionError "a.txt" "create mode 100644 a.txt" commit))
       /\ commit !! "hash" = Some (VStr "h6")
       /\ commit !! "changes" = Some (VChanges [change "b.txt" "change" "2" "1"]).
Proof.
  split; [vm_compute; reflexivity|].
  eexists. split; [vm_compute; reflexivity|].
  split; vm_compute; reflexivity.
Qed.

(** * Further properties *)

(** ** The command line *)

Module GitFacts.
Import Git.

Lemma no_duplicate_loop_spec args : forall (arg_set : gset string) ret_args,
  (forall x, x ∈ arg_set <-> x ∈ ret_args) ->
  NoDup ret_args ->
  exists tail,
    no_duplicate_loop arg_set ret_args args = ret_args ++ tail
    /\ NoDup (ret_args ++ tail)
    /\ (forall x, x ∈ ret_args ++ tail <-> x ∈ ret_args \/ x ∈ args)
    /\ sublist tail args.
Proof.
  induction args as [|arg rest IH]; intros arg_set ret_args Hset Hnd.
  - exists []. rewrite app_nil_r. repeat split; try done.
    + intros Hx. by left.
    + intros [Hx|Hx]; [done | by apply elem_of_nil in Hx].
  - cbn [no_duplicate_loop]. destruct (decide (arg ∈ arg_set)) as [Hin|Hnin].
    + destruct (IH arg_set ret_args Hset Hnd) as (tail & Heq & Hnd' & Hmem & Hsub).
      exists tail. repeat split; try done.
      * intros Hx. apply Hmem in Hx as [Hx|Hx]; [by left | right; by right].
      * intros [Hx|Hx]; apply Hmem; [by left|].
        apply elem_of_cons in Hx as [->|Hx]; [left; by apply Hset | by right].
      * by apply sublist_cons.
    + assert (Hset' : forall x, x ∈ {[arg]} ∪ arg_set <-> x ∈ ret_args ++ [arg]).
      { intros x. rewrite elem_of_union, elem_of_singleton, elem_of_app,
          list_elem_of_singleton, Hset. tauto. }
      assert (Hnd1 : NoDup (ret_args ++ [arg])).
      { apply NoDup_app. repeat split; [done| |apply NoDup_singleton].
        intros x Hx Hx'. apply list_elem_of_singleton in Hx' as ->.
        by apply Hnin, Hset. }
      destruct (IH _ _ Hset' Hnd1) as (tail & Heq & Hnd' & Hmem & Hsub).
      exists (arg :: tail). rewrite Heq, <- !app_assoc in *. cbn [app] in *.
      repeat split; try done.
      * intros Hx. apply Hmem in Hx as [Hx|Hx]; [|right; by right].
        apply elem_of_app in Hx as [Hx|Hx]; [by left|].
        apply list_elem_of_singleton in Hx as ->. right. by left.
      * intros [Hx|Hx]; apply Hmem.
        -- left. apply elem_of_app. by left.
        -- apply elem_of_cons in Hx as [->|Hx]; [|by right].
           left. apply elem_of_app. right. by apply list_elem_of_singleton.
      * by apply sublist_skip.
Qed.

Lemma empty_state (x : string) : x ∈ (∅ : gset string) <-> x ∈ ([] : list string).
Proof.
  split; intros Hx; [by apply elem_of_empty in Hx | by apply elem_of_nil in Hx].
Qed.

Lemma no_duplicate_args_nodup (args : list string) :
  NoDup (_no_duplicate_args args).
Proof.
  destruct (no_duplicate_loop_spec args ∅ [] empty_state NoDup_nil_2)
    as (tail & Heq & Hnd & _).
  unfold _no_duplicate_args. by rewrite Heq.
Qed.


Lemma no_duplicate_loop_fresh args : forall (arg_set : gset string) ret_args,
  (forall x, x ∈ arg_set <-> x ∈ ret_args) ->
  NoDup (ret_args ++ args) ->
  no_duplicate_loop arg_set ret_args args = ret_args ++ args.
Proof.
  induction args as [|arg rest IH]; intros arg_set ret_args Hset Hnd.
  - by rewrite app_nil_r.
  - cbn [no_duplicate_loop]. apply NoDup_app in Hnd as (Hnd1 & Hdisj & Hnd2).
    destruct (decide (arg ∈ arg_set)) as [Hin|Hnin].
    { exfalso. apply (Hdisj arg); [by apply Hset | by left]. }
    apply NoDup_cons in Hnd2 as [Hfresh Hnd2].
    rewrite IH.
    + by rewrite <- app_assoc.
    + intros x. rewrite elem_of_union, elem_of_singleton, elem_of_app,
        list_elem_of_singleton, Hset. tauto.
    + rewrite <- app_assoc. cbn [app]. apply NoDup_app. repeat split; [done| |].
      * intros x Hx Hx'. by apply (Hdisj x).
      * by apply NoDup_cons.
Qed.

(** X2. [_no_duplicate_args] returns its argument exactly when the
    argument has no repetition, and applying it twice is applying it
    once. *)
Theorem no_duplicate_args_fixed_points (args : list string) :
  (_no_duplicate_args args = args <-> NoDup args)
  /\ _no_duplicate_args (_no_duplicate_args args) = _no_duplicate_args args.
Proof.
  assert (Hfix : forall l, NoDup l -> _no_duplicate_args l = l).
  { intros l Hl. unfold _no_duplicate_args.
    apply (no_duplicate_loop_fresh l ∅ []); [|done].
    intros x. split; intros Hx; [by apply elem_of_empty in Hx
                                 | by apply elem_of_nil in Hx]. }
  pose proof (no_duplicate_args_nodup args) as Hnd.
  split; [split|].
  - intros <-. exact Hnd.
  - apply Hfix.
  - by apply Hfix.
Qed.

Lemma no_duplicate_loop_prefix pre : forall (arg_set : gset string) ret_args,
  exists (arg_set' : gset string) ret_args',
    (forall rest,
       no_duplicate_loop arg_set ret_args (pre ++ rest)
       = no_duplicate_loop arg_set' ret_args' rest)
    /\ (forall y, y ∈ arg_set \/ y ∈ pre -> y ∈ arg_set').
Proof.
  induction pre as [|arg pre IH]; intros arg_set ret_args.
  - exists arg_set, ret_args. split; [done|].
    intros y [Hy|Hy]; [done | by apply elem_of_nil in Hy].
  - destruct (decide (arg ∈ arg_set)) as [Hin|Hnin].
    + destruct (IH arg_set ret_args) as (s' & r' & Hloop & Hmem).
      exists s', r'. split.
      * intros rest. cbn [app no_duplicate_loop].
        rewrite decide_True by done. apply Hloop.
      * intros y [Hy|Hy]; [apply Hmem; by left|].
        apply elem_of_cons in Hy as [->|Hy]; apply Hmem; [by left | by right].
    + destruct (IH ({[arg]} ∪ arg_set) (ret_args ++ [arg]))
        as (s' & r' & Hloop & Hmem).
      exists s', r'. split.
      * intros rest. cbn [app no_duplicate_loop].
        rewrite decide_False by done. apply Hloop.
      * intros y [Hy|Hy]; apply Hmem.
        -- left. apply elem_of_union. by right.
        -- apply elem_of_cons in Hy as [->|Hy]; [|by right].
           left. apply elem_of_union. left. by apply elem_of_singleton.
Qed.

(** X3. An argument that repeats an earlier one is dropped: the list
    returned is the one returned without it. *)
Theorem no_duplicate_args_drops_repeat (pre post : list string) (x : string) :
  x ∈ pre ->
  _no_duplicate_args (pre ++ x :: post) = _no_duplicate_args (pre ++ post).
Proof.
  intros Hx. unfold _no_duplicate_args.
  destruct (no_duplicate_loop_prefix pre ∅ []) as (s' & r' & Hloop & Hmem).
  rewrite !Hloop. cbn [no_duplicate_loop].
  rewrite decide_True; [done|]. apply Hmem. by right.
Qed.

Lemma no_duplicate_args_drops_repeat_witness :
  _no_duplicate_args (["git"; "log"; "--reverse"; "--"] ++ "log" :: ["a.txt"])
  = _no_duplicate_args (["git"; "log"; "--reverse"; "--"] ++ ["a.txt"])
  /\ _no_duplicate_args (["git"; "log"; "--reverse"; "--"] ++ ["a.txt"])
     = ["git"; "log"; "--reverse"; "--"; "a.txt"].
Proof.
  split.
  - apply (no_duplicate_args_drops_repeat ["git"; "log"; "--reverse"; "--"]
             ["a.txt"] "log").
    apply list_elem_of_further, list_elem_of_here.
  - vm_compute. reflexivity.
Defined.

(** X4. Once [num_commits] has returned a number, every later call on the
    object returns that number, whatever file names and flag it is given
    and whatever the repository then holds: no command is run and nothing
    is logged. *)
Theorem num_commits_is_cached
    (check_output check_output' : string -> list string -> option (list Byte.byte))
    (decode_utf8 decode_utf8' : list Byte.byte -> option string)
    (int int' : string -> option Z)
    (self self' : Giterator) (filenames filenames' : list string)
    (all all' : bool) (n : Z) (logged : list string) :
  num_commits check_output decode_utf8 int self filenames all
  = (Ok n, self', logged) ->
  num_commits check_output' decode_utf8' int' self' filenames' all'
  = (Ok n, self', []).
Proof.
  unfold num_commits at 1. destruct (_num_commits self) as [m|] eqn:Hcache.
  - intros [= <- <- <-]. unfold num_commits. by rewrite Hcache.
  - destruct (_git check_output decode_utf8 self _) as [[output|e] logged'];
      [|discriminate].
    destruct (int output) as [m|]; [|discriminate].
    intros [= <- <- <-]. reflexivity.
Qed.

Lemma num_commits_is_cached_witness :
  let first :=
    num_commits GitSpec.sample_check_output GitSpec.sample_decode
      GitSpec.sample_int (Giterator_init "repo" true) [] false in
  first.1.1 = Ok 3
  /\ first.2 = ["git rev-list --count --branches"]
  /\ num_commits (fun _ _ => None) (fun _ => None) (fun _ => None)
       first.1.2 ["file1.txt"] true
     = (Ok 3, first.1.2, []).
Proof.
  cbn zeta. split; [vm_compute; reflexivity|]. split; [vm_compute; reflexivity|].
  apply (num_commits_is_cached GitSpec.sample_check_output (fun _ _ => None)
           GitSpec.sample_decode (fun _ => None)
           GitSpec.sample_int (fun _ => None)
           (Giterator_init "repo" true) _ [] ["file1.txt"] false true 3
           ["git rev-list --count --branches"]).
  vm_compute. reflexivity.
Defined.

(** X5. On an object as the constructor builds it, and as [num_commits]
    leaves it, [iter_commit_hashes] yields nothing and raises
    [AttributeError]: it reads [self._git_args], which nothing sets. No
    process is started. *)
Theorem iter_commit_hashes_raises_AttributeError
    {datetime : Type} (parse_datetime : string -> datetime)
    (stdout_of : list string -> list string)
    (check_output : string -> list string -> option (list Byte.byte))
    (decode_utf8 : list Byte.byte -> option string)
    (int : string -> option Z)
    (path : string) (verbose : bool) (counted filenames : list string)
    (counted_all : bool) (offset count : Z) (topo_order all : bool) :
  let self := Giterator_init path verbose in
  let self' :=
    (num_commits check_output decode_utf8 int self counted counted_all).1.2 in
  iter_commit_hashes parse_datetime stdout_of self filenames offset count
    topo_order all
  = ([], Raise (AttributeError "_git_args"), [])
  /\ iter_commit_hashes parse_datetime stdout_of self' filenames offset count
       topo_order all
     = ([], Raise (AttributeError "_git_args"), []).
Proof.
  cbn zeta. split; [reflexivity|].
  unfold iter_commit_hashes, num_commits. cbn [_num_commits Giterator_init].
  destruct (_git check_output decode_utf8 _ _) as [[output|e] logged];
    [|reflexivity].
  destruct (int output); reflexivity.
Qed.

(** *** The loop of [iter_commit_hashes] *)

Section HashesFacts.

Context {datetime : Type}.
Variable parse_datetime : string -> datetime.

Lemma hashes_record_step offset count cc (r : GitSpec.rev_record) rest :
  GitSpec.record_ok r = true ->
  within offset count cc = true ->
  hashes_loop parse_datetime offset count ∅ cc (r.1 :: r.2 :: rest)
  = yield_then [GitSpec.record_dict parse_datetime r]
      (hashes_loop parse_datetime offset count ∅ (cc + 1) rest).
Proof.
  unfold GitSpec.record_ok, GitSpec.record_dict. intros Hok Hw.
  destruct (split_ws r.1) as [|word [|hash children]] eqn:H1; try discriminate.
  destruct (split_ws r.2) as [|date [|tree parents]] eqn:H2; try discriminate.
  apply andb_true_iff in Hok as [Hword Hdate]. apply negb_true_iff in Hdate.
  cbn [hashes_loop]. rewrite Hw, H1, Hword, H2, Hdate. reflexivity.
Qed.

Lemma hashes_loop_stops offset count (commit : gmap string (value datetime))
    cc stdout :
  within offset count cc = false ->
  hashes_loop parse_datetime offset count commit cc stdout = ([], Return).
Proof. intros Hw. destruct stdout; cbn [hashes_loop]; by rewrite Hw. Qed.

Lemma hashes_loop_records offset count records : forall cc,
  forallb GitSpec.record_ok records = true ->
  hashes_loop parse_datetime offset count ∅ cc (GitSpec.records_stream records)
  = (if 0 <? count
     then take (Z.to_nat (offset + count - cc))
            (map (GitSpec.record_dict parse_datetime) records)
     else map (GitSpec.record_dict parse_datetime) records,
     Return).
Proof.
  induction records as [|r records IH]; intros cc Hok.
  - cbn. rewrite take_nil.
    by destruct (within offset count cc), (0 <? count).
  - cbn [forallb] in Hok. apply andb_true_iff in Hok as [Hr Hok].
    change (GitSpec.records_stream (r :: records))
      with (r.1 :: r.2 :: GitSpec.records_stream records).
    destruct (within offset count cc) eqn:Hw.
    + rewrite hashes_record_step by done. rewrite IH by done.
      unfold yield_then. cbn [fst snd map app]. f_equal.
      unfold within in Hw. destruct (Z.ltb_spec 0 count) as [Hpos|Hneg]; [|done].
      replace (count <=? 0) with false in Hw by (symmetry; apply Z.leb_gt; lia).
      cbn [orb] in Hw. apply Z.ltb_lt in Hw.
      replace (Z.to_nat (offset + count - cc))
        with (S (Z.to_nat (offset + count - (cc + 1)))) by lia.
      reflexivity.
    + rewrite hashes_loop_stops by done. f_equal.
      unfold within in Hw. apply orb_false_iff in Hw as [H1 H2].
      apply Z.leb_gt in H1. apply Z.ltb_ge in H2.
      replace (0 <? count) with true by (symmetry; apply Z.ltb_lt; lia).
      replace (Z.to_nat (offset + count - cc)) with 0%nat by lia.
      by rewrite take_0.
Qed.

(** X6. On an object that has been given the attribute [_git_args],
    [iter_commit_hashes] over [N] well-formed records never skips one: it
    yields the dictionaries of the first [offset + count] records when
    [count > 0], and of all of them when [count <= 0], and returns. *)
Theorem iter_commit_hashes_yields_prefix
    (stdout_of : list string -> list string) (self : Giterator)
    (git_args filenames : list string) (offset count : Z)
    (topo_order all : bool) (records : list GitSpec.rev_record) :
  _git_args self = Some git_args ->
  stdout_of (_no_duplicate_args
               (GIT_COMMAND :: hashes_command git_args filenames topo_order all))
  = GitSpec.records_stream records ->
  forallb GitSpec.record_ok records = true ->
  (iter_commit_hashes parse_datetime stdout_of self filenames offset count
     topo_order all).1
  = (if 0 <? count
     then take (Z.to_nat (offset + count))
            (map (GitSpec.record_dict parse_datetime) records)
     else map (GitSpec.record_dict parse_datetime) records,
     Return).
Proof.
  intros Hattr Hout Hok. unfold iter_commit_hashes. rewrite Hattr.
  cbn [fst]. rewrite Hout, hashes_loop_records by done.
  by rewrite Z.sub_0_r.
Qed.

Lemma hashes_loop_records_then count records rest : forall offset cc,
  count <= 0 ->
  forallb GitSpec.record_ok records = true ->
  hashes_loop parse_datetime offset count ∅ cc
    (GitSpec.records_stream records ++ rest)
  = yield_then (map (GitSpec.record_dict parse_datetime) records)
      (hashes_loop parse_datetime offset count ∅
         (cc + Z.of_nat (length records)) rest).
Proof.
  intros offset cc Hcount. revert cc.
  induction records as [|r records IH]; intros cc Hok.
  - cbn [GitSpec.records_stream map concat app length]. rewrite Z.add_0_r.
    unfold yield_then. by destruct (hashes_loop _ _ _ _ _ _).
  - cbn [forallb] in Hok. apply andb_true_iff in Hok as [Hr Hok].
    change (GitSpec.records_stream (r :: records) ++ rest)
      with (r.1 :: r.2 :: (GitSpec.records_stream records ++ rest)).
    assert (Hw : within offset count cc = true).
    { unfold within. apply orb_true_iff. left. by apply Z.leb_le. }
    rewrite hashes_record_step by done. rewrite IH by done.
    unfold yield_then. cbn [fst snd map app length].
    replace (cc + 1 + Z.of_nat (length records))
      with (cc + Z.of_nat (S (length records))) by lia.
    reflexivity.
Qed.

(** X7. A line of the output that holds no word (an empty line, or
    whitespace only) ends [iter_commit_hashes] with [IndexError], after the
    records before it have been yielded; so does a line of a single
    word. *)
Theorem hashes_loop_short_line_raises_IndexError
    (offset count : Z) (records : list GitSpec.rev_record)
    (short : string) (rest : list string) :
  count <= 0 ->
  forallb GitSpec.record_ok records = true ->
  (length (split_ws short) <= 1)%nat ->
  hashes_loop parse_datetime offset count ∅ 0
    (GitSpec.records_stream records ++ short :: rest)
  = (map (GitSpec.record_dict parse_datetime) records, Raise IndexError).
Proof.
  intros Hcount Hok Hshort. rewrite hashes_loop_records_then by done.
  assert (Hw : within offset count (0 + Z.of_nat (length records)) = true).
  { unfold within. apply orb_true_iff. left. by apply Z.leb_le. }
  cbn [hashes_loop]. rewrite Hw. unfold yield_then.
  destruct (split_ws short) as [|word [|w2 ws]] eqn:Hs.
  - cbn [fst snd]. by rewrite app_nil_r.
  - destruct (String.eqb word "commit"); cbn [fst snd]; by rewrite app_nil_r.
  - cbn [length] in Hshort. lia.
Qed.

End HashesFacts.

Lemma iter_commit_hashes_yields_prefix_witness :
  let self :=
    {| verbose := false; path := "repo"; _num_commits := None; _hashes := ∅;
       _git_args := Some [] |} in
  (iter_commit_hashes Samples.keep_date
     (fun _ => GitSpec.records_stream GitSpec.sample_records)
     self [] 1 1 false false).1
  = (if 0 <? 1
     then take (Z.to_nat (1 + 1))
            (map (GitSpec.record_dict Samples.keep_date) GitSpec.sample_records)
     else map (GitSpec.record_dict Samples.keep_date) GitSpec.sample_records,
     Return).
Proof.
  apply (iter_commit_hashes_yields_prefix Samples.keep_date
           (fun _ => GitSpec.records_stream GitSpec.sample_records)
           _ [] [] 1 1 false false GitSpec.sample_records).
  - reflexivity.
  - reflexivity.
  - vm_compute. reflexivity.
Defined.

Lemma hashes_loop_short_line_raises_IndexError_witness :
  hashes_loop Samples.keep_date 0 0 ∅ 0
    (GitSpec.records_stream GitSpec.sample_records ++ "" :: ["commit h4"])
  = (map (GitSpec.record_dict Samples.keep_date) GitSpec.sample_records,
     Raise IndexError).
Proof.
  apply (hashes_loop_short_line_raises_IndexError Samples.keep_date 0 0
           GitSpec.sample_records "" ["commit h4"]).
  - lia.
  - vm_compute. reflexivity.
  - vm_compute. lia.
Defined.

End GitFacts.

(** ** Files *)

Module FileFacts.
Import Archive FileText.

(** X8. The content of a file that is not sparse, whose data offset and
    size are not negative and fit a [Py_ssize_t], is on first access the
    range [buffer[offset_data : offset_data + size]] of the archive image,
    which is left as it was; the file then holds these bytes. *)
Theorem contiguous_content_is_slice (tarinfo : TarInfo) (buffer : BytesIO) :
  sparse tarinfo = None ->
  0 <= offset_data tarinfo <= PY_SSIZE_T_MAX ->
  0 <= size tarinfo <= PY_SSIZE_T_MAX ->
  let bytes :=
    slice (getvalue buffer) (offset_data tarinfo)
      (offset_data tarinfo + size tarinfo) in
  exists buffer',
    content (File_init tarinfo) buffer
    = (Ok bytes, {| _tarinfo := tarinfo; _data := Some bytes |}, buffer')
    /\ getvalue buffer' = getvalue buffer.
Proof.
  intros Hsp Ho Hs bytes. unfold content, File_init. cbn [_data _tarinfo].
  rewrite Hsp.
  destruct (ArchiveFacts.seek_read_slice buffer _ _ Ho Hs)
    as (b1 & b2 & Hseek & Hread & Hv).
  rewrite Hseek, Hread. by exists b2.
Qed.

Lemma contiguous_content_is_slice_witness :
  let tarinfo :=
    {| name := "file1.txt"; size := 6; mtime := 0; offset_data := 4;
       sparse := None; isfile := true |} in
  exists buffer',
    content (File_init tarinfo) {| getvalue := sample_image; tell := 0 |}
    = (Ok (list_byte_of_string "456789"),
       {| _tarinfo := tarinfo; _data := Some (list_byte_of_string "456789") |},
       buffer')
    /\ getvalue buffer' = sample_image.
Proof.
  apply (contiguous_content_is_slice
           {| name := "file1.txt"; size := 6; mtime := 0; offset_data := 4;
              sparse := None; isfile := true |}
           {| getvalue := sample_image; tell := 0 |}); [reflexivity | | ];
    unfold PY_SSIZE_T_MAX; simpl; lia.
Defined.

(** X9. Once the content of a file has been returned, every later access
    returns the same bytes without reading: whatever the shared buffer then
    holds, it is left untouched, and so is the file. *)
Theorem content_is_cached (f f' : File) (buffer buffer' other : BytesIO)
    (bytes : list Byte.byte) :
  content f buffer = (Ok bytes, f', buffer') ->
  content f' other = (Ok bytes, f', other).
Proof.
  unfold content at 1. destruct (_data f) as [d|] eqn:Hd.
  - intros [= <- <- <-]. unfold content. by rewrite Hd.
  - destruct (sparse (_tarinfo f)) as [extents|].
    + destruct (read_extents [] extents buffer) as [[r data] b1].
      destruct r; [|discriminate]. by intros [= <- <- <-].
    + destruct (seek buffer _) as [b1|e]; [|discriminate].
      destruct (read b1 _) as [[got b2]|e]; [|discriminate].
      by intros [= <- <- <-].
Qed.

Lemma content_is_cached_witness :
  let f := File_init sample_sparse in
  let first := content f {| getvalue := sample_image; tell := 0 |} in
  content first.1.2 {| getvalue := []; tell := 7 |}
  = (Ok (list_byte_of_string "0123abcd"), first.1.2,
     {| getvalue := []; tell := 7 |}).
Proof.
  cbn zeta.
  apply (content_is_cached (File_init sample_sparse) _
           {| getvalue := sample_image; tell := 0 |}
           {| getvalue := sample_image; tell := 14 |}).
  vm_compute. reflexivity.
Defined.

Lemma read_extents_negative good : forall data buffer offset size rest,
  Forall extent_ok good ->
  offset < 0 ->
  exists buffer',
    read_extents data (good ++ (offset, size) :: rest) buffer
    = (Err (if fits_ssize_t offset then ValueError else OverflowError),
       data ++ concat (map (extent_bytes (getvalue buffer)) good), buffer').
Proof.
  induction good as [|[o l] good IH]; intros data buffer offset size rest Hok Hneg.
  - exists buffer. cbn [app read_extents map concat].
    rewrite (ArchiveFacts.seek_negative buffer offset Hneg).
    by rewrite app_nil_r.
  - inversion Hok as [|? ? [Ho Hl] Hrest]; subst. cbn [fst snd] in Ho, Hl.
    destruct (ArchiveFacts.seek_read_slice buffer o l Ho Hl)
      as (b1 & b2 & Hs & Hr & Hv).
    destruct (IH (data ++ slice (getvalue buffer) o (o + l)) b2 offset size rest
                Hrest Hneg) as (b3 & Hrec).
    exists b3. cbn [app read_extents map concat]. rewrite Hs, Hr, Hrec, Hv.
    unfold extent_bytes at 2. cbn [fst snd]. by rewrite <- app_assoc.
Qed.

(** X10. When an extent of a sparse file has a negative offset, and the
    extents before it have offsets and sizes that are not negative and fit
    a [Py_ssize_t], the first access to the content raises: [ValueError]
    when the offset fits a [Py_ssize_t], [OverflowError] when it does not.
    The file keeps the bytes of the extents before it: every later access
    returns these bytes and raises nothing. *)
Theorem failed_sparse_read_leaves_partial_content
    (tarinfo : TarInfo) (good rest : list (Z * Z)) (offset size : Z)
    (buffer : BytesIO) :
  sparse tarinfo = Some (good ++ (offset, size) :: rest) ->
  Forall extent_ok good ->
  offset < 0 ->
  let partial := concat (map (extent_bytes (getvalue buffer)) good) in
  let first := content (File_init tarinfo) buffer in
  first.1.1 = Err (if fits_ssize_t offset then ValueError else OverflowError)
  /\ forall other, content first.1.2 other = (Ok partial, first.1.2, other).
Proof.
  intros Hsp Hok Hneg partial first. unfold first, content, File_init.
  cbn [_data _tarinfo]. rewrite Hsp.
  destruct (read_extents_negative good [] buffer offset size rest Hok Hneg)
    as (b' & Hr).
  rewrite Hr. cbn [fst snd app _data]. split; reflexivity.
Qed.

Lemma failed_sparse_read_leaves_partial_content_witness :
  let tarinfo :=
    {| name := "sparse.bin"; size := 8; mtime := 0; offset_data := 0;
       sparse := Some ([(0, 4)] ++ (-1, 4) :: [(10, 4)]); isfile := true |} in
  let first :=
    content (File_init tarinfo) {| getvalue := sample_image; tell := 0 |} in
  first.1.1 = Err ValueError
  /\ forall other,
       content first.1.2 other
       = (Ok (concat (map (extent_bytes sample_image) [(0, 4)])), first.1.2, other).
Proof.
  apply (failed_sparse_read_leaves_partial_content
           {| name := "sparse.bin"; size := 8; mtime := 0; offset_data := 0;
              sparse := Some ([(0, 4)] ++ (-1, 4) :: [(10, 4)]);
              isfile := true |}
           [(0, 4)] [(10, 4)] (-1) 4 {| getvalue := sample_image; tell := 0 |}).
  - reflexivity.
  - repeat constructor; unfold PY_SSIZE_T_MAX; simpl; lia.
  - lia.
Defined.

(** X11. [File.text] never hands the encoding or the error handler it is
    given to [bytes.decode]: what it returns depends on them only through
    their being given or not, and when an encoding is given the codec asked
    for is the one named ["encoding"]. *)
Theorem text_ignores_the_values_given {D : Type}
    (bytes_decode : string -> string -> list Byte.byte -> result D string)
    (f : File) (buffer : BytesIO) (encoding errors : option string) :
  (forall encoding' errors',
     given encoding' = given encoding ->
     given errors' = given errors ->
     text bytes_decode f buffer encoding' errors'
     = text bytes_decode f buffer encoding errors)
  /\ (forall bytes f' buffer',
        content f buffer = (Ok bytes, f', buffer') ->
        text bytes_decode f buffer encoding errors
        = (match bytes_decode
                   (if given encoding then "encoding"
                    else if given errors then "errors" else "utf-8")
                   (if given encoding && given errors then "errors"
                    else "strict")
                   bytes with
           | Ok s => Ok s
           | Err d => Err (inr d)
           end, f', buffer')).
Proof.
  split.
  - intros encoding' errors' He Hr. unfold text, kwargs_keys.
    by rewrite He, Hr.
  - intros bytes f' buffer' Hc. unfold text, kwargs_keys. rewrite Hc.
    by destruct (given encoding), (given errors).
Qed.

Lemma text_ignores_the_values_given_witness :
  let f := File_init {| name := "file1.txt"; size := 6; mtime := 0;
                        offset_data := 4; sparse := None; isfile := true |} in
  let buffer := {| getvalue := sample_image; tell := 0 |} in
  (text sample_bytes_decode f buffer None None).1.1 = Ok "456789"
  /\ text sample_bytes_decode f buffer (Some "latin-1") None
     = text sample_bytes_decode f buffer (Some "utf-8") None
  /\ (text sample_bytes_decode f buffer (Some "utf-8") None).1.1
     = Err (inr "LookupError: unknown encoding: encoding").
Proof.
  cbn zeta. split; [vm_compute; reflexivity|]. split.
  - apply (text_ignores_the_values_given sample_bytes_decode); reflexivity.
  - vm_compute. reflexivity.
Defined.

(** X12. [iter_files] yields a fresh [File] for every regular file the
    archive lists, in the order of the archive, and nothing for the other
    members. When the listing ends with a read error after some members,
    the files before it have been yielded all the same: the generator then
    returns as if the archive were complete when no file names were
    requested, and raises when some were. *)
Theorem iter_files_yields_regular_files
    (tarfile_open : list Byte.byte -> members)
    (decode_utf8 : list Byte.byte -> option string)
    (filenames : option (list string)) (stdout stderr : list Byte.byte)
    (entries : list TarInfo) (ending : members) :
  tarfile_open stdout = members_of entries ending ->
  ending = TarEnd \/ ending = TarReadError ->
  let files := map File_init (filter (fun t => isfile t = true) entries) in
  iter_files tarfile_open decode_utf8 filenames stdout stderr
  = (files,
     match ending with
     | TarReadError =>
         if requested filenames
         then Raise (match decode_utf8 stderr with
                     | Some detail => ReadError detail
                     | None => UnicodeDecodeError stderr
                     end)
         else Return
     | _ => Return
     end).
Proof.
  intros Hopen Hend files. unfold iter_files. rewrite Hopen. clear Hopen.
  unfold files. clear files.
  induction entries as [|t entries IH].
  - cbn [members_of filter map]. destruct Hend as [-> | ->]; cbn [iter_members].
    + reflexivity.
    + destruct (requested filenames); cbn [negb]; [|reflexivity].
      by destruct (decode_utf8 stderr).
  - cbn [members_of iter_members]. rewrite IH. unfold yield_then.
    cbn [fst snd]. rewrite filter_cons. destruct (isfile t) eqn:Hf.
    + rewrite decide_True by done. reflexivity.
    + rewrite decide_False by discriminate. reflexivity.
Qed.

Lemma iter_files_yields_regular_files_witness :
  let dir :=
    {| name := "sub"; size := 0; mtime := 0; offset_data := 512;
       sparse := None; isfile := false |} in
  let file :=
    {| name := "sub/file2.bin"; size := 8; mtime := 0; offset_data := 1024;
       sparse := None; isfile := true |} in
  iter_files (fun _ => members_of [dir; file] TarReadError) decode_latin None
    [] []
  = ([File_init file], Return).
Proof.
  cbn zeta.
  pose proof (iter_files_yields_regular_files
                (fun _ => members_of
                   [ {| name := "sub"; size := 0; mtime := 0;
                        offset_data := 512; sparse := None; isfile := false |};
                     {| name := "sub/file2.bin"; size := 8; mtime := 0;
                        offset_data := 1024; sparse := None; isfile := true |} ]
                   TarReadError)
                decode_latin None [] [] _ TarReadError eq_refl
                (or_intror eq_refl)) as H.
  exact H.
Defined.

End FileFacts.

(** ** More on the log stream parser *)

Section ParserMore.

Context {datetime : Type}.
Variable parse_datetime : string -> datetime.
Variable get_git_renaming : string -> option (string * string).

Lemma within_beyond offset count cc cc' :
  within offset count cc = false -> cc <= cc' ->
  within offset count cc' = false.
Proof.
  unfold within. intros [H1 H2]%orb_false_iff Hle. rewrite H1. cbn [orb].
  apply Z.ltb_ge in H2. apply Z.ltb_ge. lia.
Qed.

Lemma last_cons {A} (l : list A) : forall a d, List.last (a :: l) d = List.last l a.
Proof.
  induction l as [|b l IH]; intros a d; [reflexivity|].
  change (List.last (a :: b :: l) d) with (List.last (b :: l) d).
  rewrite !IH. reflexivity.
Qed.

Lemma yield_then_nil {A E} (g : list A * outcome E) : yield_then [] g = g.
Proof. by destruct g. Qed.

Lemma yield_then_app {A E} (xs ys : list A) (g : list A * outcome E) :
  yield_then xs (yield_then ys g) = yield_then (xs ++ ys) g.
Proof. unfold yield_then. cbn [fst snd]. by rewrite app_assoc. Qed.

(** The loop, with a commit in flight, over frames that other lines
    follow: the frames are read, all but the last commit are submitted to
    the test of the loop, and the loop goes on with the last commit in
    flight. *)
Lemma loop_frames_then offset count rest frames :
  forall (pending : gmap string (value datetime)) cl cc,
  forallb (well_formed parse_datetime get_git_renaming) frames = true ->
  nonempty pending = true ->
  iter_commits_loop parse_datetime get_git_renaming offset count pending cl cc
    (stream_of frames ++ rest)
  = yield_then
      (select offset count cc
         (removelast
            (pending :: map (frame_commit parse_datetime get_git_renaming) frames)))
      (iter_commits_loop parse_datetime get_git_renaming offset count
         (List.last (map (frame_commit parse_datetime get_git_renaming) frames)
            pending)
         (match frames with [] => cl | _ :: _ => -1 end)
         (cc + Z.of_nat (length frames)) rest).
Proof.
  induction frames as [|f frames IH]; intros pending cl cc Hwf Hne.
  - cbn [stream_of map concat app removelast select List.last length].
    by rewrite yield_then_nil, Z.add_0_r.
  - cbn [forallb] in Hwf. apply andb_true_iff in Hwf as [Hf Hwf].
    change (stream_of (f :: frames) ++ rest)
      with ((frame_lines f ++ stream_of frames) ++ rest).
    rewrite <- app_assoc.
    change (frame_lines f ++ stream_of frames ++ rest)
      with (start_line f :: (frame_body f ++ stream_of frames ++ rest)).
    cbn [map]. rewrite last_cons.
    change (removelast (pending :: ?a :: ?l))
      with (pending :: removelast (a :: l)).
    change (select offset count cc (pending :: ?l))
      with ((if (offset <=? cc) && within offset count cc
             then [pending] else []) ++ select offset count (cc + 1) l).
    replace (cc + Z.of_nat (length (f :: frames)))
      with (cc + 1 + Z.of_nat (length frames)) by (cbn [length]; lia).
    destruct (within offset count cc) eqn:Hw.
    2:{ rewrite loop_stops by done. rewrite andb_false_r.
        rewrite select_beyond by (apply (within_beyond _ _ cc); [done | lia]).
        rewrite loop_stops by (apply (within_beyond _ _ cc); [done | lia]).
        reflexivity. }
    destruct (well_formed_parts parse_datetime get_git_renaming f Hf)
      as (Hstart & _).
    cbn [iter_commits_loop]. rewrite Hw, Hstart, String.eqb_refl, Hne.
    rewrite andb_true_r.
    destruct (within offset count (cc + 1)) eqn:Hw1.
    + destruct (frame_commit_digest parse_datetime get_git_renaming f Hf)
        as [Hd _].
      rewrite (loop_digest_lines parse_datetime get_git_renaming _ _ _ _ _ _ _
                 _ _ Hw1
                 (frame_body_no_delimiter1 parse_datetime get_git_renaming f Hf)
                 Hd).
      rewrite IH by (done || by apply frame_commit_nonempty).
      rewrite yield_then_app.
      by destruct frames.
    + rewrite loop_stops by done.
      rewrite select_beyond by done.
      rewrite loop_stops by (apply (within_beyond _ _ (cc + 1)); [done | lia]).
      by rewrite app_nil_r.
Qed.

(** [iter_commits] over frames that other lines follow. *)
Lemma iter_commits_then offset count f frames rest :
  within offset count 0 = true ->
  forallb (well_formed parse_datetime get_git_renaming) (f :: frames) = true ->
  iter_commits parse_datetime get_git_renaming offset count
    (stream_of (f :: frames) ++ rest)
  = yield_then
      (select offset count 0
         (removelast
            (map (frame_commit parse_datetime get_git_renaming) (f :: frames))))
      (iter_commits_loop parse_datetime get_git_renaming offset count
         (List.last (map (frame_commit parse_datetime get_git_renaming) frames)
            (frame_commit parse_datetime get_git_renaming f))
         (-1) (Z.of_nat (length frames)) rest).
Proof.
  intros Hw Hwf. cbn [forallb] in Hwf. apply andb_true_iff in Hwf as [Hf Hwf].
  unfold iter_commits.
  change (stream_of (f :: frames) ++ rest)
    with ((frame_lines f ++ stream_of frames) ++ rest).
  rewrite <- app_assoc.
  change (frame_lines f ++ stream_of frames ++ rest)
    with (start_line f :: (frame_body f ++ stream_of frames ++ rest)).
  destruct (well_formed_parts parse_datetime get_git_renaming f Hf)
    as (Hstart & _).
  cbn [iter_commits_loop]. rewrite Hw, Hstart, String.eqb_refl.
  unfold nonempty at 1. rewrite bool_decide_eq_true_2 by done. cbn [negb].
  destruct (frame_commit_digest parse_datetime get_git_renaming f Hf) as [Hd _].
  rewrite (loop_digest_lines parse_datetime get_git_renaming _ _ _ _ _ _ _
             _ _ Hw
             (frame_body_no_delimiter1 parse_datetime get_git_renaming f Hf) Hd).
  rewrite loop_frames_then by (done || by apply frame_commit_nonempty).
  cbn [Z.add map]. by destruct frames.
Qed.

Lemma stream_of_one f (rest : list string) :
  stream_of [f] ++ rest = frame_lines f ++ rest.
Proof. cbn [stream_of map concat]. by rewrite app_nil_r. Qed.

(** X13. [first_commit] and [last_commit] return the commit of the first
    frame of the output as soon as the first line of a second frame is
    read: whatever follows that line, be it lines that would end
    [iter_commits] with an exception, does not change the result. On an
    output without a line they return [None]. *)
Theorem first_commit_reads_one_frame (f : frame) (start : string)
    (tail : list string) :
  well_formed parse_datetime get_git_renaming f = true ->
  rstrip start = _DELIMITER1 ->
  OneShot.first_commit parse_datetime get_git_renaming
    (frame_lines f ++ start :: tail)
  = Ok (Some (frame_commit parse_datetime get_git_renaming f))
  /\ OneShot.last_commit parse_datetime get_git_renaming
       (frame_lines f ++ start :: tail)
     = Ok (Some (frame_commit parse_datetime get_git_renaming f))
  /\ OneShot.first_commit parse_datetime get_git_renaming (frame_lines f)
     = Ok (Some (frame_commit parse_datetime get_git_renaming f))
  /\ OneShot.first_commit parse_datetime get_git_renaming [] = Ok None.
Proof.
  intros Hwf Hstart.
  assert (Hwfs : forallb (well_formed parse_datetime get_git_renaming) [f]
                 = true) by (cbn [forallb]; by rewrite Hwf).
  assert (Hfirst : OneShot.first_yield
                     (iter_commits parse_datetime get_git_renaming 0 0
                        (frame_lines f ++ start :: tail))
                   = Ok (Some (frame_commit parse_datetime get_git_renaming f))).
  { rewrite <- stream_of_one. rewrite iter_commits_then by done.
    cbn [map removelast select List.last length Z.of_nat].
    rewrite yield_then_nil. cbn [iter_commits_loop].
    change (within 0 0 0) with true. cbn iota.
    rewrite Hstart, String.eqb_refl.
    rewrite (frame_commit_nonempty parse_datetime get_git_renaming f Hwf).
    change (0 <=? 0) with true. cbn iota.
    by destruct (iter_commits_loop _ _ _ _ _ _ _ _). }
  split; [exact Hfirst|]. split; [exact Hfirst|]. split; [|reflexivity].
  unfold OneShot.first_commit.
  pose proof (iter_commits_over_frames parse_datetime get_git_renaming [f] 0 0
                Hwfs ltac:(lia)) as H.
  rewrite <- (app_nil_r (frame_lines f)), <- stream_of_one, app_nil_r.
  rewrite H. reflexivity.
Qed.

End ParserMore.

Lemma first_commit_reads_one_frame_witness :
  OneShot.first_commit keep_date no_renaming
    (frame_lines frame1 ++ line _DELIMITER1 :: frame_body frame_summary_only)
  = Ok (Some (frame_commit keep_date no_renaming frame1))
  /\ OneShot.last_commit keep_date no_renaming
       (frame_lines frame1 ++ line _DELIMITER1 :: frame_body frame_summary_only)
     = Ok (Some (frame_commit keep_date no_renaming frame1))
  /\ OneShot.first_commit keep_date no_renaming (frame_lines frame1)
     = Ok (Some (frame_commit keep_date no_renaming frame1))
  /\ OneShot.first_commit keep_date no_renaming [] = Ok None.
Proof.
  apply (first_commit_reads_one_frame keep_date no_renaming frame1
           (line _DELIMITER1) (frame_body frame_summary_only)).
  - vm_compute. reflexivity.
  - vm_compute. reflexivity.
Defined.

Section ParserEdges.

Context {datetime : Type}.
Variable parse_datetime : string -> datetime.
Variable get_git_renaming : string -> option (string * string).

Lemma last_forall {A} (P : A -> Prop) (l : list A) : forall d,
  P d -> Forall P l -> P (List.last l d).
Proof.
  induction l as [|a l IH]; intros d Hd Hl; [done|].
  inversion Hl; subst. rewrite last_cons. by apply IH.
Qed.

Lemma frame_commits_nonempty frames :
  forallb (well_formed parse_datetime get_git_renaming) frames = true ->
  Forall (fun c => nonempty c = true)
    (map (frame_commit parse_datetime get_git_renaming) frames).
Proof.
  induction frames as [|f frames IH]; [constructor|].
  cbn [forallb map]. intros [Hf Hwf]%andb_true_iff.
  constructor; [by apply frame_commit_nonempty | by apply IH].
Qed.

(** X14. With [count > 0], [iter_commits] reads the output no further than
    the first line of the frame that follows the last commit it yields:
    over [offset + count] well-formed frames and the first line of one
    more, it returns after yielding the commits from position [offset] on,
    whatever the lines after that. *)
Theorem iter_commits_stops_reading (frames : list frame) (offset count : Z)
    (start : string) (tail : list string) :
  forallb (well_formed parse_datetime get_git_renaming) frames = true ->
  0 <= offset ->
  0 < count ->
  Z.of_nat (length frames) = offset + count ->
  rstrip start = _DELIMITER1 ->
  iter_commits parse_datetime get_git_renaming offset count
    (stream_of frames ++ start :: tail)
  = (drop (Z.to_nat offset)
       (map (frame_commit parse_datetime get_git_renaming) frames), Return).
Proof.
  intros Hwf Hoff Hcount Hlen Hstart.
  destruct frames as [|f frames]; [cbn [length] in Hlen; lia|].
  assert (Hw0 : within offset count 0 = true).
  { unfold within. apply orb_true_iff. right. apply Z.ltb_lt. lia. }
  rewrite iter_commits_then by done.
  set (all := map (frame_commit parse_datetime get_git_renaming) (f :: frames)).
  set (final := List.last (map (frame_commit parse_datetime get_git_renaming) frames)
                  (frame_commit parse_datetime get_git_renaming f)).
  assert (Hall : all = removelast all ++ [final]).
  { unfold final. rewrite <- (last_cons _ _ (frame_commit parse_datetime
                                               get_git_renaming f)).
    apply app_removelast_last. discriminate. }
  assert (Hfinal : nonempty final = true).
  { pose proof (frame_commits_nonempty (f :: frames) Hwf) as Hne.
    cbn [map] in Hne. inversion Hne; subst. by apply last_forall. }
  assert (Hlen' : Z.of_nat (length (removelast all)) = offset + count - 1).
  { apply (f_equal (@length _)) in Hall. rewrite length_app in Hall.
    cbn [length] in Hall. unfold all in Hall at 1. rewrite length_map in Hall.
    lia. }
  cbn [length] in Hlen.
  assert (Hw : within offset count (Z.of_nat (length frames)) = true).
  { unfold within. apply orb_true_iff. right. apply Z.ltb_lt. lia. }
  assert (Hw' : within offset count (Z.of_nat (length frames) + 1) = false).
  { unfold within. apply orb_false_iff. split; [apply Z.leb_gt | apply Z.ltb_ge];
      lia. }
  cbn [iter_commits_loop]. rewrite Hw, Hstart, String.eqb_refl, Hfinal.
  rewrite loop_stops by done.
  replace (offset <=? Z.of_nat (length frames)) with true
    by (symmetry; apply Z.leb_le; lia).
  unfold yield_then. cbn [fst snd]. rewrite app_nil_r. f_equal.
  rewrite select_window by lia. unfold window.
  replace (0 <? count) with true by (symmetry; apply Z.ltb_lt; lia).
  replace (offset - 0) with offset by lia.
  rewrite take_ge by (rewrite length_drop; lia).
  rewrite Hall at 2. rewrite drop_app_le by lia. reflexivity.
Qed.

(** [iter_commits] over well-formed frames, whatever the offset. *)
Lemma iter_commits_select_any offset count frames :
  forallb (well_formed parse_datetime get_git_renaming) frames = true ->
  iter_commits parse_datetime get_git_renaming offset count (stream_of frames)
  = (select offset count 0
       (map (frame_commit parse_datetime get_git_renaming) frames), Return).
Proof.
  intros Hwf. destruct (within offset count 0) eqn:Hw.
  - destruct frames as [|f frames].
    + cbn. unfold flush_pending, nonempty.
      rewrite bool_decide_eq_true_2 by done. by rewrite Hw.
    + rewrite <- (app_nil_r (stream_of (f :: frames))).
      rewrite iter_commits_then by done.
      cbn [iter_commits_loop]. unfold flush_pending.
      pose proof (frame_commits_nonempty (f :: frames) Hwf) as Hne.
      cbn [map] in Hne. inversion Hne as [|? ? Hf Hrest]; subst.
      rewrite (last_forall _ _ _ Hf Hrest). cbn [andb].
      set (all := map (frame_commit parse_datetime get_git_renaming) (f :: frames)).
      set (final := List.last _ _).
      assert (Hall : all = removelast all ++ [final]).
      { unfold final. rewrite <- (last_cons _ _ (frame_commit parse_datetime
                                                   get_git_renaming f)).
        apply app_removelast_last. discriminate. }
      assert (Hsel : forall (l : list (gmap string (value datetime))) x cc,
                select offset count cc (l ++ [x])
                = select offset count cc l
                  ++ (if (offset <=? cc + Z.of_nat (length l))
                         && within offset count (cc + Z.of_nat (length l))
                      then [x] else [])).
      { induction l as [|y l IH]; intros x cc.
        - cbn [app select length Z.of_nat]. rewrite Z.add_0_r.
          by rewrite app_nil_r.
        - cbn [app select]. rewrite IH, <- app_assoc.
          replace (cc + 1 + Z.of_nat (length l))
            with (cc + Z.of_nat (length (y :: l))) by (cbn [length]; lia).
          reflexivity. }
      rewrite Hall at 2. rewrite Hsel. cbn [Z.add].
      assert (Hlen : length (removelast all) = length frames).
      { apply (f_equal (@length _)) in Hall. rewrite length_app in Hall.
        cbn [length] in Hall. unfold all in Hall at 1.
        rewrite length_map in Hall. cbn [length] in Hall. lia. }
      rewrite Hlen. unfold yield_then. rewrite !Z.add_0_l.
      by destruct (within offset count (Z.of_nat (length frames))),
           (offset <=? Z.of_nat (length frames)).
  - unfold iter_commits. rewrite loop_stops by done.
    by rewrite select_beyond.
Qed.

(** X15. A negative [offset] skips nothing and shortens the limit: over
    well-formed frames, [iter_commits] yields the first [count + offset]
    commits when [count > 0] (none when [count + offset <= 0]) and all the
    commits when [count <= 0]. *)
Theorem iter_commits_negative_offset (frames : list frame) (offset count : Z) :
  forallb (well_formed parse_datetime get_git_renaming) frames = true ->
  offset < 0 ->
  iter_commits parse_datetime get_git_renaming offset count (stream_of frames)
  = (if 0 <? count
     then take (Z.to_nat (count + offset))
            (map (frame_commit parse_datetime get_git_renaming) frames)
     else map (frame_commit parse_datetime get_git_renaming) frames,
     Return).
Proof.
  intros Hwf Hoff. rewrite iter_commits_select_any by done.
  rewrite select_from by lia.
  by replace (count - (0 - offset)) with (count + offset) by lia.
Qed.

End ParserEdges.

Lemma iter_commits_stops_reading_witness :
  iter_commits keep_date no_renaming 1 1
    (stream_of [frame1; frame2] ++ line _DELIMITER1 :: frame_body frame_summary_only)
  = (drop (Z.to_nat 1) (map (frame_commit keep_date no_renaming) [frame1; frame2]),
     Return).
Proof.
  apply (iter_commits_stops_reading keep_date no_renaming [frame1; frame2] 1 1
           (line _DELIMITER1) (frame_body frame_summary_only)).
  - vm_compute. reflexivity.
  - lia.
  - lia.
  - reflexivity.
  - vm_compute. reflexivity.
Defined.

Lemma iter_commits_negative_offset_witness :
  iter_commits keep_date no_renaming (-1) 3 (stream_of [frame1; frame2; frame3])
  = (if 0 <? 3
     then take (Z.to_nat (3 + -1))
            (map (frame_commit keep_date no_renaming) [frame1; frame2; frame3])
     else map (frame_commit keep_date no_renaming) [frame1; frame2; frame3],
     Return).
Proof.
  apply (iter_commits_negative_offset keep_date no_renaming
           [frame1; frame2; frame3] (-1) 3).
  - vm_compute. reflexivity.
  - lia.
Defined.

(** *** Blank text *)

(** A text of whitespace only. *)
Fixpoint blank (s : string) : bool :=
  match s with
  | EmptyString => true
  | String c s' => is_space c && blank s'
  end.

Lemma rstrip_empty_blank s : rstrip s = EmptyString -> blank s = true.
Proof.
  induction s as [|c s IH]; [done|]. cbn [rstrip blank].
  destruct (is_space c); cbn [andb]; [|discriminate].
  destruct (rstrip s); [auto | discriminate].
Qed.

Lemma lstrip_empty_blank s : lstrip s = EmptyString -> blank s = true.
Proof.
  induction s as [|c s IH]; [done|]. cbn [lstrip blank].
  destruct (is_space c); cbn [andb]; [auto | discriminate].
Qed.

Lemma blank_rstrip_empty s : blank (rstrip s) = true -> rstrip s = EmptyString.
Proof.
  induction s as [|c s IH]; [done|]. cbn [rstrip].
  destruct (is_space c && is_empty (rstrip s)) eqn:Hc; [done|].
  cbn [blank]. intros [Hsp Hb]%andb_true_iff. rewrite (IH Hb) in Hc.
  rewrite Hsp in Hc. discriminate.
Qed.

Lemma split_ws_blank s : blank s = true -> split_ws s = [].
Proof.
  unfold split_ws. induction s as [|c s IH]; [done|].
  cbn [blank split_ws_aux]. intros [Hsp Hb]%andb_true_iff.
  rewrite Hsp. cbn [app]. by apply IH.
Qed.

(** The guard of the transform of [parent_hash] changes nothing. *)
Lemma split_guard s :
  (if is_empty (strip s) then [] else split_ws s) = split_ws s.
Proof.
  destruct (is_empty (strip s)) eqn:He; [|done].
  apply is_empty_true in He. unfold strip in He.
  symmetry. apply split_ws_blank, rstrip_empty_blank, blank_rstrip_empty.
  by apply lstrip_empty_blank.
Qed.

Section ParserFields.

Context {datetime : Type}.
Variable parse_datetime : string -> datetime.
Variable get_git_renaming : string -> option (string * string).

(** X16. The commit of a well-formed frame holds every field of
    [_LOG_INFOS]: the value under the name of entry [i] is line [i] of the
    frame, stripped of trailing whitespace and transformed as the entry
    says; it holds the message; and its [parent_hash] is the list of the
    words of the third line, empty for a commit without parent. *)
Theorem frame_commit_is_fully_populated (f : frame) :
  well_formed parse_datetime get_git_renaming f = true ->
  let commit := frame_commit parse_datetime get_git_renaming f in
  (forall i tok key tr,
     _LOG_INFOS parse_datetime !! i = Some (tok, key, tr) ->
     exists raw,
       field_lines f !! i = Some raw
       /\ commit !! key = Some (field_value tr (rstrip raw)))
  /\ commit !! "message" = Some (VStr (frame_message f))
  /\ (exists raw,
        field_lines f !! 2%nat = Some raw
        /\ commit !! "parent_hash" = Some (VList (split_ws (rstrip raw)))).
Proof.
  intros Hwf commit.
  destruct (frame_commit_digest parse_datetime get_git_renaming f Hwf)
    as [_ Hk].
  destruct (well_formed_parts parse_datetime get_git_renaming f Hwf)
    as (_ & Hlen & _).
  assert (Hfields : forall i tok key tr,
            _LOG_INFOS parse_datetime !! i = Some (tok, key, tr) ->
            exists raw,
              field_lines f !! i = Some raw
              /\ commit !! key = Some (field_value tr (rstrip raw))).
  { intros i tok key tr Hi.
    assert (Hlt : (i < length (field_lines f))%nat).
    { rewrite Hlen. apply lookup_lt_Some in Hi. exact Hi. }
    apply lookup_lt_is_Some_2 in Hlt as [raw Hraw].
    exists raw. split; [done|].
    assert (Hkey : key <> "changes").
    { intros ->. apply (log_infos_no_key parse_datetime "changes"); [by left|].
      apply list_elem_of_In,
        (in_map (fun info => info.1.2) _ (tok, "changes", tr)).
      apply list_elem_of_In. by eapply list_elem_of_lookup_2. }
    unfold commit. rewrite Hk by done.
    by apply (frame_head_field parse_datetime f i tok). }
  split; [exact Hfields|]. split.
  - unfold commit. rewrite Hk by done. unfold frame_head.
    apply lookup_insert_eq.
  - destruct (Hfields 2%nat "%P" "parent_hash"
                (Some (fun s => VList (if is_empty (strip s) then []
                                       else split_ws s))) eq_refl)
      as (raw & Hraw & Hc).
    exists raw. split; [done|]. rewrite Hc. cbn [field_value].
    by rewrite split_guard.
Qed.

(** X17. When the line of the second delimiter follows the field lines at
    once, with no line of message between, [iter_commits] yields nothing and
    raises [KeyError('message')], whatever the lines after it. *)
Theorem delimiter2_after_fields_raises_KeyError
    (start : string) (fields : list string) (ending : string)
    (rest : list string) (offset count : Z) :
  rstrip start = _DELIMITER1 ->
  length fields = length (_LOG_INFOS parse_datetime) ->
  forallb (fun raw => negb (is_delimiter raw)) fields = true ->
  rstrip ending = delimiter2_line ->
  0 <= offset ->
  iter_commits parse_datetime get_git_renaming offset count
    (start :: fields ++ ending :: rest)
  = ([], Raise (KeyError "message")).
Proof.
  intros Hstart Hlen Hnd Hend Hoff.
  assert (Hw : within offset count 0 = true).
  { unfold within. apply orb_true_iff.
    destruct (Z.leb_spec count 0); [by left | right]. apply Z.ltb_lt. lia. }
  unfold iter_commits. cbn [iter_commits_loop].
  rewrite Hw, Hstart, String.eqb_refl.
  unfold nonempty at 1. rewrite bool_decide_eq_true_2 by done. cbn [negb].
  change (length (_LOG_INFOS parse_datetime)) with 11%nat in Hlen.
  rewrite (loop_digest_lines parse_datetime get_git_renaming _ _ _ _ _ _ _
             _ _ Hw (no_delimiter1 _ Hnd)
             (digest_lines_fields parse_datetime get_git_renaming fields ∅ 1
                ltac:(lia) ltac:(lia) Hnd)).
  cbn [iter_commits_loop]. rewrite Hw, Hend.
  change (String.eqb delimiter2_line _DELIMITER1) with false. cbn iota.
  unfold digest. fold delimiter2_line. rewrite String.eqb_refl.
  unfold get_message.
  rewrite store_fields_other.
  - by rewrite lookup_empty.
  - change (drop (Z.to_nat (1 - 1)) (_LOG_INFOS parse_datetime))
      with (_LOG_INFOS parse_datetime).
    apply log_infos_no_key. by right.
Qed.

(** X18. An output that ends inside the message of a frame, before the
    second delimiter, raises nothing: [iter_commits] yields the commit as
    built so far, whose message is the lines read, each stripped of trailing
    whitespace and joined by newlines, without the final strip. *)
Theorem truncated_frame_is_yielded
    (start : string) (fields messages : list string) :
  rstrip start = _DELIMITER1 ->
  length fields = length (_LOG_INFOS parse_datetime) ->
  messages <> [] ->
  forallb (fun raw => negb (is_delimiter raw)) (fields ++ messages) = true ->
  iter_commits parse_datetime get_git_renaming 0 0 (start :: fields ++ messages)
  = ([<["message" := VStr (join_lines (map rstrip messages))]>
        (store_fields (_LOG_INFOS parse_datetime) fields ∅)], Return).
Proof.
  intros Hstart Hlen Hmsg Hnd.
  change (length (_LOG_INFOS parse_datetime)) with 11%nat in Hlen.
  pose proof Hnd as Hnd'. rewrite forallb_app in Hnd'.
  apply andb_true_iff in Hnd' as [Hnf Hnm].
  destruct messages as [|m1 ms]; [done|].
  cbn [forallb] in Hnm. apply andb_true_iff in Hnm as [Hm1 Hnm].
  apply negb_true_iff, is_delimiter_false in Hm1 as [_ Hm1].
  assert (Hd : digest_lines parse_datetime get_git_renaming ∅ 1
                 (fields ++ m1 :: ms)
               = Ok (<["message" := VStr (join_lines (map rstrip (m1 :: ms)))]>
                       (store_fields (_LOG_INFOS parse_datetime) fields ∅),
                     13 + Z.of_nat (length ms))).
  { rewrite digest_lines_app.
    rewrite digest_lines_fields by (done || lia). rewrite Hlen.
    cbn [mbind result_bind]. change (1 + Z.of_nat 11) with 12.
    change (drop (Z.to_nat (1 - 1)) (_LOG_INFOS parse_datetime))
      with (_LOG_INFOS parse_datetime).
    cbn [digest_lines]. rewrite digest_message_first by done.
    cbn [mbind result_bind]. rewrite rstrip_idempotent.
    rewrite (digest_lines_message parse_datetime get_git_renaming ms _ 13
               (rstrip m1)) by (done || lia || apply lookup_insert_eq).
    by rewrite insert_insert_eq, extend_join. }
  unfold iter_commits. cbn [iter_commits_loop].
  change (within 0 0 0) with true. cbn iota.
  rewrite Hstart, String.eqb_refl.
  unfold nonempty at 1. rewrite bool_decide_eq_true_2 by done. cbn [negb].
  rewrite <- (app_nil_r (fields ++ m1 :: ms)).
  rewrite (loop_digest_lines parse_datetime get_git_renaming 0 0 0 _ _ _ _
             _ _ eq_refl (no_delimiter1 _ Hnd) Hd).
  cbn [iter_commits_loop]. change (within 0 0 0) with true. cbn iota.
  unfold flush_pending. change (within 0 0 0) with true.
  change (0 <=? 0) with true. rewrite !andb_true_r.
  unfold nonempty. rewrite bool_decide_eq_false_2; [done|].
  intros Hempty. apply (f_equal (fun m => m !! "message")) in Hempty.
  by rewrite lookup_insert_eq, lookup_empty in Hempty.
Qed.

End ParserFields.

Lemma frame_commit_is_fully_populated_witness :
  let commit := frame_commit keep_date no_renaming frame2 in
  (forall i tok key tr,
     _LOG_INFOS keep_date !! i = Some (tok, key, tr) ->
     exists raw,
       field_lines frame2 !! i = Some raw
       /\ commit !! key = Some (field_value tr (rstrip raw)))
  /\ commit !! "message" = Some (VStr (frame_message frame2))
  /\ (exists raw,
        field_lines frame2 !! 2%nat = Some raw
        /\ commit !! "parent_hash" = Some (VList (split_ws (rstrip raw)))).
Proof.
  apply (frame_commit_is_fully_populated keep_date no_renaming frame2).
  vm_compute. reflexivity.
Defined.

Lemma delimiter2_after_fields_raises_KeyError_witness :
  iter_commits keep_date no_renaming 0 0
    (start_line frame1 :: field_lines frame1 ++ end_line frame1 :: [])
  = ([], Raise (KeyError "message")).
Proof.
  apply (delimiter2_after_fields_raises_KeyError keep_date no_renaming
           (start_line frame1) (field_lines frame1) (end_line frame1) [] 0 0).
  - vm_compute. reflexivity.
  - reflexivity.
  - vm_compute. reflexivity.
  - vm_compute. reflexivity.
  - lia.
Defined.

Lemma truncated_frame_is_yielded_witness :
  iter_commits keep_date no_renaming 0 0
    (start_line frame_spaces :: field_lines frame_spaces
       ++ message_lines frame_spaces)
  = ([<["message" := VStr (join_lines (map rstrip (message_lines frame_spaces)))]>
        (store_fields (_LOG_INFOS keep_date) (field_lines frame_spaces) ∅)],
     Return).
Proof.
  apply (truncated_frame_is_yielded keep_date no_renaming
           (start_line frame_spaces) (field_lines frame_spaces)
           (message_lines frame_spaces)).
  - vm_compute. reflexivity.
  - reflexivity.
  - discriminate.
  - vm_compute. reflexivity.
Defined.

Section ParserChanges.

Context {datetime : Type}.
Variable parse_datetime : string -> datetime.
Variable get_git_renaming : string -> option (string * string).

(** X19. A numeric-stat line whose path [get_git_renaming] resolves to a
    rename adds one change at the end of the changes of the commit: its name
    is the new path, its [old_name] the old path, its type ["rename"], with
    the counts of the line; the commit is otherwise as it was. *)
Theorem numstat_rename_is_recorded
    (commit : gmap string (value datetime)) (line : string)
    (additions deletions name old_name new_name : string)
    (changes : list (gmap string string)) :
  String.eqb line delimiter2_line = false ->
  Re._RE_CHANGE_NUMSTATS (strip line) = Some (additions, deletions, name) ->
  get_git_renaming name = Some (old_name, new_name) ->
  (commit !! "changes" = None /\ changes = [])
  \/ commit !! "changes" = Some (VChanges changes) ->
  exists change : gmap string string,
    digest parse_datetime get_git_renaming commit (-1) line
    = Ok (<["changes" := VChanges (changes ++ [change])]> commit, -1)
    /\ change !! "name" = Some new_name
    /\ change !! "old_name" = Some old_name
    /\ change !! "type" = Some "rename"
    /\ change !! "additions" = Some additions
    /\ change !! "deletions" = Some deletions
    /\ change !! "mode" = None.
Proof.
  intros Hd Hre Hren Hc.
  destruct (numstats_not_summary (strip line) _ Hre) as [Hrename Hsum].
  rewrite digest_change_line by done. unfold _parse_changes.
  rewrite Hre, Hren.
  eexists. split.
  - destruct Hc as [[Hc ->]|Hc]; rewrite Hc; unfold get_changes.
    + rewrite lookup_insert_eq. cbn [mbind result_bind truthy negb].
      unfold _parse_summary. rewrite Hrename, Hsum.
      cbn [mbind result_bind]. by rewrite insert_insert_eq.
    + rewrite Hc. cbn [mbind result_bind truthy negb].
      unfold _parse_summary. rewrite Hrename, Hsum. reflexivity.
  - repeat split; reflexivity.
Qed.

Lemma parse_changes_frame (commit commit' : gmap string (value datetime))
    line r :
  _parse_changes get_git_renaming commit line = Ok (commit', r) ->
  forall k, k <> "changes" -> commit' !! k = commit !! k.
Proof.
  unfold _parse_changes.
  destruct (Re._RE_CHANGE_NUMSTATS line) as [[[a d] name]|].
  2:{ by intros [= <- <-]. }
  destruct (commit !! "changes") as [v|] eqn:Hc.
  - destruct (get_changes commit) as [changes|e]; [|discriminate].
    cbn [mbind result_bind]. intros [= <- <-] k Hk.
    by rewrite lookup_insert_ne.
  - destruct (get_changes (<["changes" := VChanges []]> commit))
      as [changes|e]; [|discriminate].
    cbn [mbind result_bind]. intros [= <- <-] k Hk.
    rewrite lookup_insert_ne by done. by rewrite lookup_insert_ne.
Qed.

Lemma parse_summary_frame (commit commit' : gmap string (value datetime))
    line b :
  _parse_summary commit line = Ok (commit', b) ->
  forall k, k <> "changes" -> commit' !! k = commit !! k.
Proof.
  unfold _parse_summary. destruct (startswith "rename " line).
  { by intros [= <- <-]. }
  destruct (Re._RE_CHANGE_SUMMARY (strip line)) as [[[type mode] name]|].
  2:{ by intros [= <- <-]. }
  destruct (get_changes commit) as [changes|e]; [|discriminate].
  cbn [mbind result_bind].
  destruct (enrich type mode name changes) as [[changes'|]|e];
    cbn [mbind result_bind]; try discriminate.
  intros [= <- <-] k Hk. by rewrite lookup_insert_ne.
Qed.

Lemma digest_change_frame (commit commit' : gmap string (value datetime))
    line cl' :
  String.eqb line delimiter2_line = false ->
  digest parse_datetime get_git_renaming commit (-1) line = Ok (commit', cl') ->
  cl' = -1 /\ forall k, k <> "changes" -> commit' !! k = commit !! k.
Proof.
  intros Hd. rewrite digest_change_line by done.
  destruct (_parse_changes get_git_renaming commit (strip line))
    as [[commit1 r]|e] eqn:H1; [|discriminate].
  cbn [mbind result_bind]. destruct (negb (truthy r)).
  - destruct (_parse_summary commit1 (strip line)) as [[commit2 b]|e] eqn:H2;
      [|discriminate].
    cbn [mbind result_bind]. intros [= <- <-]. split; [done|].
    intros k Hk. rewrite (parse_summary_frame _ _ _ _ H2) by done.
    by apply (parse_changes_frame _ _ _ _ H1).
  - intros [= <- <-]. split; [done|].
    by apply (parse_changes_frame _ _ _ _ H1).
Qed.

(** X20. Whatever lines the change section of a frame holds, when they are
    digested without an exception the parser is still in the change section
    and has touched nothing but the changes: every other key of the commit,
    the fields and the message, holds what it held when the section
    began. *)
Theorem change_section_keeps_fields (lines : list string)
    (commit commit' : gmap string (value datetime)) (cl' : Z) :
  Forall (fun raw => String.eqb (rstrip raw) delimiter2_line = false) lines ->
  digest_lines parse_datetime get_git_renaming commit (-1) lines
  = Ok (commit', cl') ->
  cl' = -1 /\ forall k, k <> "changes" -> commit' !! k = commit !! k.
Proof.
  intros Hnd. revert commit.
  induction Hnd as [|raw lines Hraw _ IH]; intros commit.
  - cbn [digest_lines]. by intros [= <- <-].
  - cbn [digest_lines].
    destruct (digest parse_datetime get_git_renaming commit (-1) (rstrip raw))
      as [[commit1 cl1]|e] eqn:H1; [|discriminate].
    cbn [mbind result_bind].
    destruct (digest_change_frame _ _ _ _ Hraw H1) as [-> Hk1].
    intros H2. destruct (IH _ H2) as [-> Hk2]. split; [done|].
    intros k Hk. rewrite Hk2 by done. by apply Hk1.
Qed.

End ParserChanges.

(** A sample of [get_git_renaming]: it knows one rename. *)
Definition sample_renaming (name : string) : option (string * string) :=
  if String.eqb name "old.txt => new.txt" then Some ("old.txt", "new.txt")
  else None.

Lemma numstat_rename_is_recorded_witness :
  exists change : gmap string string,
    digest keep_date sample_renaming
      (frame_commit keep_date sample_renaming frame1_numstat_only) (-1)
      (numstat "3" "1" "old.txt => new.txt")
    = Ok (<["changes" := VChanges
              ([Samples.change "a.txt" "change" "1" "0";
                Samples.change "b.txt" "change" "2" "1"] ++ [change])]>
            (frame_commit keep_date sample_renaming frame1_numstat_only), -1)
    /\ change !! "name" = Some "new.txt"
    /\ change !! "old_name" = Some "old.txt"
    /\ change !! "type" = Some "rename"
    /\ change !! "additions" = Some "3"
    /\ change !! "deletions" = Some "1"
    /\ change !! "mode" = None.
Proof.
  apply (numstat_rename_is_recorded keep_date sample_renaming
           (frame_commit keep_date sample_renaming frame1_numstat_only)
           (numstat "3" "1" "old.txt => new.txt") "3" "1" "old.txt => new.txt"
           "old.txt" "new.txt").
  - vm_compute. reflexivity.
  - vm_compute. reflexivity.
  - reflexivity.
  - right. vm_compute. reflexivity.
Defined.

Lemma change_section_keeps_fields_witness :
  exists commit',
    digest_lines keep_date no_renaming
      (frame_commit keep_date no_renaming frame3) (-1) (change_lines frame1)
    = Ok (commit', -1)
    /\ forall k, k <> "changes" ->
         commit' !! k = frame_commit keep_date no_renaming frame3 !! k.
Proof.
  destruct (digest_lines keep_date no_renaming
              (frame_commit keep_date no_renaming frame3) (-1)
              (change_lines frame1)) as [[commit' cl']|e] eqn:Hd.
  - destruct (change_section_keeps_fields keep_date no_renaming
                (change_lines frame1)
                (frame_commit keep_date no_renaming frame3) commit' cl')
      as [-> Hk].
    + repeat constructor.
    + exact Hd.
    + exists commit'. by split.
  - vm_compute in Hd. discriminate.
Defined.

(** ** More on the branch reconstructor *)

Section ReconstructorMore.

Context {Commit E : Type}.
Variable hash : Commit -> string.
Variable parent_hash : Commit -> list string.

(** A parent-to-child chain: every commit but the first names the hash of
    the commit before it among its parents. *)
Fixpoint chain (l : list Commit) : Prop :=
  match l with
  | x :: (y :: _) as rest => hash x ∈ parent_hash y /\ chain rest
  | _ => True
  end.

Lemma chain_snoc (l : list Commit) : forall a c,
  chain (a :: l) ->
  hash (List.last l a) ∈ parent_hash c ->
  chain (a :: l ++ [c]).
Proof.
  induction l as [|b l IH]; intros a c Hch Hlast.
  - cbn [app chain List.last] in *. by split.
  - destruct Hch as [Hab Hch]. rewrite last_cons in Hlast.
    split; [done|]. by apply IH.
Qed.

Lemma try_append_chain added c (b : branch Commit) parents :
  (forall p, p ∈ parents -> p ∈ parent_hash c) ->
  chain (branch_commits b) ->
  chain (branch_commits (try_append hash added c b parents).1).
Proof.
  intros Hsub Hch. induction parents as [|p ps IH]; [done|].
  cbn [try_append].
  destruct (negb added && String.eqb p (hash (tip b))) eqn:Hm.
  - apply andb_true_iff in Hm as [_ Hp]. apply String.eqb_eq in Hp.
    cbn [fst]. unfold branch_commits, append. cbn [first_commit later_commits].
    apply chain_snoc; [exact Hch|].
    fold (tip b). rewrite <- Hp. apply Hsub. by left.
  - apply IH. intros q Hq. apply Hsub. by right.
Qed.

(** An invariant of the open branches that every turn keeps, and that
    makes every run yielded satisfy a property, holds of all the runs of the
    generator. *)
Lemma consecutive_loop_invariant (I : branch Commit -> Prop)
    (R : list Commit -> Prop) (bl ba : Z) :
  (forall branches c,
     Forall I branches ->
     Forall I (step hash parent_hash bl ba branches c).1
     /\ Forall R (step hash parent_hash bl ba branches c).2) ->
  (forall b, I b -> R (branch_commits b)) ->
  forall commits branches (ending : outcome E),
  Forall I branches ->
  Forall R (consecutive_loop hash parent_hash bl ba branches commits ending).1.
Proof.
  intros Hstep Hflush. induction commits as [|c rest IH]; intros branches ending HI.
  - cbn [consecutive_loop]. destruct ending; cbn [fst]; [|constructor].
    induction HI; cbn [map]; constructor; auto.
  - cbn [consecutive_loop]. destruct (Hstep branches c HI) as [HI' HR].
    destruct (step hash parent_hash bl ba branches c) as [branches' runs].
    unfold yield_then. cbn [fst snd] in *. apply Forall_app. split; [done|].
    by apply IH.
Qed.

Lemma offered_forall (I J : branch Commit -> Prop) c :
  (forall b added,
     I b ->
     let b1 := (try_append hash added c b (parent_hash c)).1 in
     J (Branch (age b1 + 1) (first_commit b1) (later_commits b1))) ->
  forall branches added,
  Forall I branches ->
  Forall J (offered hash parent_hash c branches added).1.
Proof.
  intros Hone. induction branches as [|b rest IH]; intros added HI.
  - constructor.
  - inversion HI as [|? ? Hb Hrest]; subst. cbn [offered].
    pose proof (Hone b added Hb) as Hj. cbn zeta in Hj.
    destruct (try_append hash added c b (parent_hash c)) as [b1 added1].
    specialize (IH added1 Hrest).
    destruct (offered hash parent_hash c rest added1) as [bs added2].
    cbn [fst] in *. by constructor.
Qed.

Lemma step_forall (I J : branch Commit -> Prop) (R : list Commit -> Prop)
    (bl ba : Z) :
  (forall c, I (new_branch c)) ->
  (forall c b added,
     I b ->
     let b1 := (try_append hash added c b (parent_hash c)).1 in
     J (Branch (age b1 + 1) (first_commit b1) (later_commits b1))) ->
  (forall b, J b -> evicted bl ba b = false -> I b) ->
  (forall b, J b -> evicted bl ba b = true -> R (branch_commits b)) ->
  forall branches c,
  Forall I branches ->
  Forall I (step hash parent_hash bl ba branches c).1
  /\ Forall R (step hash parent_hash bl ba branches c).2.
Proof.
  intros Hnew Hone Hkeep Hrun branches c HI.
  destruct (decide (parent_hash c = [])) as [Hp|Hp].
  - unfold step. rewrite Hp. cbn [fst snd]. split; [|constructor].
    apply Forall_app. split; [done|]. by repeat constructor.
  - rewrite (step_offered hash parent_hash bl ba branches c Hp). cbn [fst snd].
    pose proof (offered_forall I J c (Hone c) branches false HI) as HJ.
    rewrite Forall_forall in HJ. split.
    + apply Forall_app. split.
      * apply Forall_forall. intros b [Hev Hb]%list_elem_of_filter. auto.
      * destruct ((offered hash parent_hash c branches false).2);
          by repeat constructor.
    + apply Forall_forall. intros run Hrun'.
      apply list_elem_of_In, in_map_iff in Hrun' as (b & <- & Hb).
      apply list_elem_of_In, list_elem_of_filter in Hb as [Hev Hb]. auto.
Qed.

(** X21. Every run [iter_commits_consecutive] yields is a parent-to-child
    chain: each of its commits but the first names the hash of the commit
    before it in the run among its parents. *)
Theorem runs_are_chains (bl ba : Z) (source : list Commit * outcome E) :
  Forall chain (consecutive_runs hash parent_hash bl ba source).1.
Proof.
  unfold consecutive_runs.
  apply (consecutive_loop_invariant (fun b => chain (branch_commits b)) chain);
    [|done|constructor].
  apply (step_forall (fun b => chain (branch_commits b))
           (fun b => chain (branch_commits b)) chain); try done.
  intros c b added Hb. cbn zeta. by apply try_append_chain.
Qed.

(** X22. No run is empty, and no run holds more than
    [max(1, branch_length) + 1] commits: a branch is yielded in the turn in
    which it outgrows [branch_length]. *)
Theorem runs_are_bounded (bl ba : Z) (source : list Commit * outcome E) :
  Forall (fun run => 1 <= Z.of_nat (length run) <= Z.max 1 bl + 1)
    (consecutive_runs hash parent_hash bl ba source).1.
Proof.
  unfold consecutive_runs.
  apply (consecutive_loop_invariant
           (fun b => Z.of_nat (length (branch_commits b)) <= Z.max 1 bl)
           (fun run => 1 <= Z.of_nat (length run) <= Z.max 1 bl + 1));
    [| |constructor].
  - apply (step_forall
             (fun b => Z.of_nat (length (branch_commits b)) <= Z.max 1 bl)
             (fun b => Z.of_nat (length (branch_commits b)) <= Z.max 1 bl + 1)).
    + intros c. cbn. lia.
    + intros c b added Hb. cbn zeta.
      destruct (try_append_cases hash added c b (parent_hash c)) as [H|[_ H]];
        rewrite H; cbn [fst].
      * change (branch_commits (Branch _ (first_commit b) (later_commits b)))
          with (branch_commits b). lia.
      * change (branch_commits (Branch _ _ _)) with (branch_commits b ++ [c]).
        rewrite length_app. cbn [length]. lia.
    + intros b _ Hev. unfold evicted in Hev.
      apply orb_false_iff in Hev as [Hlen _]. apply Z.ltb_ge in Hlen. lia.
    + intros b Hb _. split; [cbn [branch_commits length]; lia | exact Hb].
  - intros b Hb. split; [cbn [branch_commits length]; lia | lia].
Qed.

Lemma filter_nothing_evicted (bl ba : Z) (bs : list (branch Commit)) :
  Forall (fun b => evicted bl ba b = false) bs ->
  filter (fun b => evicted bl ba b = false) bs = bs
  /\ filter (fun b => evicted bl ba b = true) bs = [].
Proof.
  induction 1 as [|b bs Hb _ [IH1 IH2]]; [done|].
  rewrite !filter_cons. rewrite decide_True by done.
  rewrite decide_False by (rewrite Hb; discriminate). by rewrite IH1, IH2.
Qed.

Lemma consecutive_loop_small (bl ba : Z) (e : E) commits :
  forall branches n,
  0 <= n ->
  Forall (fun b => Z.of_nat (length (branch_commits b)) <= n /\ age b <= n)
    branches ->
  n + Z.of_nat (length commits) <= bl ->
  n + Z.of_nat (length commits) <= ba ->
  consecutive_loop hash parent_hash bl ba branches commits (Raise e)
  = ([], Raise e).
Proof.
  induction commits as [|c rest IH]; intros branches n Hn HI Hbl Hba;
    [reflexivity|].
  cbn [length] in Hbl, Hba. cbn [consecutive_loop].
  assert (Hnext :
    (step hash parent_hash bl ba branches c).2 = []
    /\ Forall (fun b => Z.of_nat (length (branch_commits b)) <= n + 1
                        /\ age b <= n + 1)
         (step hash parent_hash bl ba branches c).1).
  { destruct (decide (parent_hash c = [])) as [Hp|Hp].
    - unfold step. rewrite Hp. cbn [fst snd]. split; [done|].
      apply Forall_app. split.
      + eapply Forall_impl; [exact HI|]. intros b [? ?]. lia.
      + repeat constructor; cbn; lia.
    - rewrite (step_offered hash parent_hash bl ba branches c Hp).
      cbn [fst snd].
      assert (HJ : Forall (fun b => Z.of_nat (length (branch_commits b)) <= n + 1
                                    /\ age b <= n + 1)
                     (offered hash parent_hash c branches false).1).
      { apply (offered_forall
                 (fun b => Z.of_nat (length (branch_commits b)) <= n /\ age b <= n));
          [|done].
        intros b added [Hlen Hage]. cbn zeta.
        destruct (try_append_cases hash added c b (parent_hash c)) as [H|[_ H]];
          rewrite H; cbn [fst age first_commit later_commits append].
        - change (branch_commits (Branch _ (first_commit b) (later_commits b)))
            with (branch_commits b). lia.
        - change (branch_commits (Branch _ _ _)) with (branch_commits b ++ [c]).
          rewrite length_app. cbn [length]. lia. }
      assert (Hnone : Forall (fun b => evicted bl ba b = false)
                        (offered hash parent_hash c branches false).1).
      { eapply Forall_impl; [exact HJ|]. intros b [Hlen Hage]. unfold evicted.
        apply orb_false_iff. split; apply Z.ltb_ge; lia. }
      destruct (filter_nothing_evicted bl ba _ Hnone) as [-> ->].
      split; [done|]. apply Forall_app. split; [done|].
      destruct ((offered hash parent_hash c branches false).2);
        repeat constructor; cbn; lia. }
  destruct Hnext as [Hruns HI'].
  destruct (step hash parent_hash bl ba branches c) as [branches' runs].
  cbn [fst snd] in *. subst runs.
  rewrite (IH branches' (n + 1)) by (done || lia). reflexivity.
Qed.

(** X23. An exception of the commit source passes through, and the commits
    still held in open branches are then never yielded: when the source has
    produced no more commits than either bound before raising,
    [iter_commits_consecutive] yields no commit at all. *)
Theorem source_exception_loses_buffered_commits
    (bl ba : Z) (commits : list Commit) (e : E) :
  Z.of_nat (length commits) <= bl ->
  Z.of_nat (length commits) <= ba ->
  iter_commits_consecutive hash parent_hash bl ba (commits, Raise e)
  = ([], Raise e).
Proof.
  intros Hbl Hba. unfold iter_commits_consecutive, consecutive_runs.
  cbn [fst snd].
  rewrite (consecutive_loop_small bl ba e commits [] 0) by (done || lia).
  reflexivity.
Qed.

End ReconstructorMore.

Lemma source_exception_loses_buffered_commits_witness :
  iter_commits_consecutive fst snd 100 100 ([k1; k2; k3], Raise tt)
  = ([], Raise tt).
Proof.
  apply (source_exception_loses_buffered_commits (E := unit) fst snd 100 100
           [k1; k2; k3] tt); simpl; lia.
Defined.
